(** * MiniVenmo: a shallow embedding of [src/minivenmo.py]

    The program is three Python classes: [CreditCard] (a balance that can
    be charged), [User] (name, cash balance, optional credit card, friend
    list, activity log) and [MiniVenmo] (the registry of users and the
    global feed).

    Python objects are mutable and shared by reference, so the embedding
    keeps an object store: one array of [User] objects and one of
    [CreditCard] objects, a reference being the index at which the object
    was allocated.  Methods that touch more than one object ([add_friend],
    [pay]) are written in a small state monad over that store, one monadic
    step per source statement.

    Numbers.  Every caller in the repository (the tests and [main]) passes
    Python [int] amounts, whose arithmetic is exact; amounts and balances
    are integers [Z] here.  Binary floating point arithmetic is outside
    this model.  The format specifier [:.2f] applied to an [int] prints its
    decimal digits followed by [.00] (exactly so for magnitudes up to 2^53,
    where the conversion to [float] loses nothing). *)

From Stdlib Require Import ZArith Lia Ascii String.
From Stdlib Require Import Floats.PrimFloat Floats.SpecFloat Floats.FloatOps.
From Stdlib Require Import Numbers.Cyclic.Int63.Uint63.
From stdpp Require Import base option list strings pretty.

Open Scope Z_scope.

(** References into the object store. *)
Abbreviation uref := nat (only parsing).
Abbreviation cref := nat (only parsing).

(** [f"{amount:.2f}"] for an [int] amount. *)
Definition format_2f (amount : Z) : string := pretty amount +:+ ".00".

(** ** class CreditCard *)
Module CreditCard.

Record t : Type := mk { balance : Z }.

(** [CreditCard.__init__] *)
Definition init (balance : Z) : t := mk balance.

(** [CreditCard.charge]: the object after the call and the returned
    boolean. *)
Definition charge (self : t) (amount : Z) : bool * t :=
  if decide (balance self >= amount)
  then (true, mk (balance self - amount))
  else (false, self).

End CreditCard.

(** ** class User: the object *)
Module User.

Record t : Type := mk {
  name : string;
  balance : Z;
  credit_card : option cref;
  friends : list uref;
  activity_log : list string
}.

(** [User.__init__] *)
Definition init (name : string) (balance : Z) : t :=
  mk name balance None [] [].

(** Attribute assignments and list appends on one object. *)
Definition set_balance (v : Z) (u : t) : t :=
  mk (name u) v (credit_card u) (friends u) (activity_log u).

Definition set_credit_card (c : option cref) (u : t) : t :=
  mk (name u) (balance u) c (friends u) (activity_log u).

Definition friends_append (f : uref) (u : t) : t :=
  mk (name u) (balance u) (credit_card u) (friends u ++ [f]) (activity_log u).

Definition activity_log_append (entry : string) (u : t) : t :=
  mk (name u) (balance u) (credit_card u) (friends u) (activity_log u ++ [entry]).

End User.

(** ** The object store and its monad *)

Record Heap : Type := mkHeap {
  user_objs : list User.t;
  card_objs : list CreditCard.t
}.

Definition empty_heap : Heap := mkHeap [] [].

(** A computation reads and writes the store; [None] is a dereference of
    a reference that was never allocated, which no Python program can
    produce. *)
Definition M (A : Type) : Type := Heap -> option (A * Heap).

Definition ret {A} (x : A) : M A := fun h => Some (x, h).

Definition bind {A B} (m : M A) (k : A -> M B) : M B :=
  fun h => match m h with
           | Some (x, h') => k x h'
           | None => None
           end.

Notation "x <- m ;; k" := (bind m (fun x => k))
  (at level 100, m at next level, right associativity).
Notation "m ;;; k" := (bind m (fun _ => k))
  (at level 100, right associativity).

(** Read the object behind a user reference. *)
Definition user_get (r : uref) : M User.t :=
  fun h => match user_objs h !! r with
           | Some u => Some (u, h)
           | None => None
           end.

(** Mutate the object behind a user reference in place. *)
Definition user_update (r : uref) (f : User.t -> User.t) : M unit :=
  fun h => match user_objs h !! r with
           | Some u => Some (tt, mkHeap (<[r := f u]> (user_objs h)) (card_objs h))
           | None => None
           end.

Definition card_get (r : cref) : M CreditCard.t :=
  fun h => match card_objs h !! r with
           | Some c => Some (c, h)
           | None => None
           end.

Definition card_update (r : cref) (f : CreditCard.t -> CreditCard.t) : M unit :=
  fun h => match card_objs h !! r with
           | Some c => Some (tt, mkHeap (user_objs h) (<[r := f c]> (card_objs h)))
           | None => None
           end.

(** Allocation of fresh objects: the new reference is the next index. *)
Definition user_alloc (u : User.t) : M uref :=
  fun h => Some (length (user_objs h), mkHeap (user_objs h ++ [u]) (card_objs h)).

Definition card_alloc (c : CreditCard.t) : M cref :=
  fun h => Some (length (card_objs h), mkHeap (user_objs h) (card_objs h ++ [c])).

(** [CreditCard(balance)] and [card.charge(amount)] on a stored card. *)
Definition new_credit_card (balance : Z) : M cref :=
  card_alloc (CreditCard.init balance).

Definition charge (c : cref) (amount : Z) : M bool :=
  card <- card_get c ;;
  let '(ok, card') := CreditCard.charge card amount in
  card_update c (fun _ => card') ;;;
  ret ok.

(** ** class User: the methods *)

(** [User.assign_credit_card] *)
Definition assign_credit_card (self : uref) (credit_card : option cref) : M unit :=
  user_update self (User.set_credit_card credit_card).

(** [friend in self.friends]: users compare by identity. *)
Definition friend_in (friend : uref) (l : list uref) : bool :=
  bool_decide (friend ∈ l).

(** [User.add_friend] *)
Definition add_friend (self friend : uref) : M bool :=
  if decide (friend = self) then ret false
  else
    me <- user_get self ;;
    if friend_in friend (User.friends me) then ret false
    else
      user_update self (User.friends_append friend) ;;;
      user_update friend (User.friends_append self) ;;;
      me <- user_get self ;;
      fr <- user_get friend ;;
      user_update self
        (User.activity_log_append
           (User.name me +:+ " and " +:+ User.name fr +:+ " are now friends")) ;;;
      fr <- user_get friend ;;
      me <- user_get self ;;
      user_update friend
        (User.activity_log_append
           (User.name fr +:+ " and " +:+ User.name me +:+ " are now friends")) ;;;
      ret true.

(** The two payment messages. *)
Definition paid_entry (payer payee : string) (amount : Z) (description : string) : string :=
  payer +:+ " paid " +:+ payee +:+ " $" +:+ format_2f amount +:+ " for " +:+ description.

Definition credit_entry (payee : string) (amount : Z) (description : string) : string :=
  "Paid " +:+ payee +:+ " $" +:+ format_2f amount +:+ " for " +:+ description
    +:+ " (credit card)".

(** [User.pay] *)
Definition pay (self recipient : uref) (amount : Z) (description : string) : M bool :=
  if decide (recipient = self) then ret false
  else if decide (amount <= 0) then ret false
  else
    me <- user_get self ;;
    if decide (User.balance me >= amount) then
      user_update self (fun u => User.set_balance (User.balance u - amount) u) ;;;
      user_update recipient (fun u => User.set_balance (User.balance u + amount) u) ;;;
      me <- user_get self ;;
      rc <- user_get recipient ;;
      user_update self
        (User.activity_log_append
           (paid_entry (User.name me) (User.name rc) amount description)) ;;;
      me <- user_get self ;;
      rc <- user_get recipient ;;
      user_update recipient
        (User.activity_log_append
           (paid_entry (User.name me) (User.name rc) amount description)) ;;;
      ret true
    else
      (* [self.credit_card and self.credit_card.balance >= amount]: a
         missing card is falsy and the comparison is not evaluated *)
      match User.credit_card me with
      | None => ret false
      | Some c =>
          card <- card_get c ;;
          if decide (CreditCard.balance card >= amount) then
            card_update c (fun k => CreditCard.mk (CreditCard.balance k - amount)) ;;;
            user_update recipient (fun u => User.set_balance (User.balance u + amount) u) ;;;
            rc <- user_get recipient ;;
            user_update self
              (User.activity_log_append
                 (credit_entry (User.name rc) amount description)) ;;;
            me <- user_get self ;;
            rc <- user_get recipient ;;
            user_update recipient
              (User.activity_log_append
                 (paid_entry (User.name me) (User.name rc) amount description)) ;;;
            ret true
          else ret false
      end.

(** [User.retrieve_activity] *)
Definition retrieve_activity (self : uref) : M (list string) :=
  me <- user_get self ;; ret (User.activity_log me).

(** ** class MiniVenmo *)
Module MiniVenmo.

Record t : Type := mk { users : list uref }.

(** [MiniVenmo.__init__] *)
Definition init : t := mk [].

End MiniVenmo.

(** [MiniVenmo.create_user]: the new reference, the registry after the
    append, and the store with the new object. *)
Definition create_user (app : MiniVenmo.t) (name : string) (balance : Z)
  : M (uref * MiniVenmo.t) :=
  new_user <- user_alloc (User.init name balance) ;;
  ret (new_user, MiniVenmo.mk (MiniVenmo.users app ++ [new_user])).

(** The inner loop of [render_feed]: one user's entries are pushed onto
    the feed unless already there. *)
Definition feed_push (feed : list string) (entry : string) : list string :=
  if bool_decide (entry ∈ feed) then feed else feed ++ [entry].

Definition feed_extend (feed : list string) (log : list string) : list string :=
  foldl feed_push feed log.

(** The outer loop of [render_feed]. *)
Fixpoint feed_loop (users : list uref) (feed : list string) : M (list string) :=
  match users with
  | [] => ret feed
  | user :: rest =>
      log <- retrieve_activity user ;;
      feed_loop rest (feed_extend feed log)
  end.

(** [MiniVenmo.render_feed] *)
Definition render_feed (app : MiniVenmo.t) : M (list string) :=
  feed_loop (MiniVenmo.users app) [].

(** ** Client programs

    A client holds the application object and drives it through the
    public interface, one call at a time.  The references it passes are
    ones it was handed earlier, so a call on a reference that was never
    allocated is no call at all ([None]). *)

Record World : Type := mkWorld {
  app : MiniVenmo.t;
  heap : Heap
}.

(** [app = MiniVenmo()] *)
Definition fresh_world : World := mkWorld MiniVenmo.init empty_heap.

Inductive Op : Type :=
  | OpCreateUser (name : string) (balance : Z)
  | OpCreditCard (balance : Z)
  | OpCharge (card : cref) (amount : Z)
  | OpAssignCreditCard (user : uref) (credit_card : option cref)
  | OpAddFriend (self friend : uref)
  | OpPay (self recipient : uref) (amount : Z) (description : string)
  | OpRetrieveActivity (self : uref)
  | OpRenderFeed.

Inductive Result : Type :=
  | RNone
  | RBool (b : bool)
  | RUser (r : uref)
  | RCard (r : cref)
  | RStrings (l : list string).

(** Run a method that leaves the registry alone. *)
Definition call {A} (res : A -> Result) (m : M A) (w : World) : option (Result * World) :=
  match m (heap w) with
  | Some (x, h') => Some (res x, mkWorld (app w) h')
  | None => None
  end.

Definition run_op (op : Op) (w : World) : option (Result * World) :=
  match op with
  | OpCreateUser name balance =>
      match create_user (app w) name balance (heap w) with
      | Some ((r, app'), h') => Some (RUser r, mkWorld app' h')
      | None => None
      end
  | OpCreditCard balance => call RCard (new_credit_card balance) w
  | OpCharge card amount => call RBool (charge card amount) w
  | OpAssignCreditCard user None =>
      call (fun _ => RNone) (assign_credit_card user None) w
  | OpAssignCreditCard user (Some c) =>
      call (fun _ => RNone) (card_get c ;;; assign_credit_card user (Some c)) w
  | OpAddFriend self friend => call RBool (add_friend self friend) w
  | OpPay self recipient amount description =>
      call RBool (pay self recipient amount description) w
  | OpRetrieveActivity self => call RStrings (retrieve_activity self) w
  | OpRenderFeed => call RStrings (render_feed (app w)) w
  end.

(** A client program is a list of calls; running it yields the results in
    order and the final state. *)
Fixpoint run (ops : list Op) (w : World) : option (list Result * World) :=
  match ops with
  | [] => Some ([], w)
  | op :: rest =>
      match run_op op w with
      | Some (r, w1) =>
          match run rest w1 with
          | Some (rs, w2) => Some (r :: rs, w2)
          | None => None
          end
      | None => None
      end
  end.

(** The states a client can bring about, starting from a fresh
    application. *)
Inductive reachable : World -> Prop :=
  | reachable_fresh : reachable fresh_world
  | reachable_step w op r w' :
      reachable w -> run_op op w = Some (r, w') -> reachable w'.

(** ** The feed as the specification words it

    The specification describes the feed as the concatenation of the
    users' logs, in registry order, in which only the first occurrence of
    each string is kept.  [first_occurrences] follows those words;
    [render_feed] above follows the code. *)

Fixpoint first_occurrences (l : list string) : list string :=
  match l with
  | [] => []
  | x :: rest => x :: filter (fun y => y <> x) (first_occurrences rest)
  end.

(** The log behind a reference. *)
Definition log_of (h : Heap) (r : uref) : list string :=
  match user_objs h !! r with
  | Some u => User.activity_log u
  | None => []
  end.

(** Every user's log, one after the other, in registry order. *)
Definition all_entries (h : Heap) (app : MiniVenmo.t) : list string :=
  concat (log_of h <$> MiniVenmo.users app).



(** ** The friends relation *)

(** The friend list behind a reference. *)
Definition friends_of (h : Heap) (r : uref) : list uref :=
  match user_objs h !! r with
  | Some u => User.friends u
  | None => []
  end.

Definition friends_symmetric (h : Heap) : Prop :=
  forall a b, b ∈ friends_of h a <-> a ∈ friends_of h b.

Definition friends_irreflexive (h : Heap) : Prop :=
  forall a, a ∉ friends_of h a.

Definition friends_duplicate_free (h : Heap) : Prop :=
  forall a, NoDup (friends_of h a).

(** The three properties of the friends relation, kept by every call. *)
Definition friends_invariant (h : Heap) : Prop :=
  friends_symmetric h /\ friends_irreflexive h /\ friends_duplicate_free h.

(** A computation that leaves every friend list as it found it. *)
Definition keeps_friends {A} (m : M A) : Prop :=
  forall h x h', m h = Some (x, h') -> forall r, friends_of h' r = friends_of h r.

(** What a successful [a.add_friend(b)] appends to the friend list of [x]. *)
Definition new_friend (a b x : uref) : list uref :=
  if decide (x = a) then [b] else if decide (x = b) then [a] else [].

(** A call [a.add_friend(b)] or [b.add_friend(a)] that returned true. *)
Definition is_friend_add (a b : uref) (call : Op * Result) : bool :=
  match call with
  | (OpAddFriend x y, RBool true) =>
      bool_decide ((x = a /\ y = b) \/ (x = b /\ y = a))
  | _ => false
  end.

(** How many such calls a run made, given its calls and their results. *)
Definition friend_adds (a b : uref) (ops : list Op) (rs : list Result) : nat :=
  length (filter (fun call => is_friend_add a b call = true) (zip ops rs)).

(** ** Well-formed states

    Python hands out references to live objects only: every registered
    user and every assigned card exists. *)

Definition registry_allocated (app : MiniVenmo.t) (h : Heap) : Prop :=
  Forall (fun r => is_Some (user_objs h !! r)) (MiniVenmo.users app).

Definition cards_allocated (h : Heap) : Prop :=
  forall r u c,
    user_objs h !! r = Some u -> User.credit_card u = Some c ->
    is_Some (card_objs h !! c).

Definition well_formed (w : World) : Prop :=
  registry_allocated (app w) (heap w) /\ cards_allocated (heap w).

(** The store [h'] came from [h] by allocations and by updates that left
    the [credit_card] attributes alone. *)
Definition store_le (h h' : Heap) : Prop :=
  (forall r, is_Some (user_objs h !! r) -> is_Some (user_objs h' !! r)) /\
  (forall c, is_Some (card_objs h !! c) -> is_Some (card_objs h' !! c)) /\
  (forall r u',
      user_objs h' !! r = Some u' ->
      User.credit_card u' = None \/
      exists u, user_objs h !! r = Some u /\ User.credit_card u = User.credit_card u').

Definition grows {A} (m : M A) : Prop :=
  forall h x h', m h = Some (x, h') -> store_le h h'.

(** ** The calls as a transition relation

    One rule per way a call can return: which call, under which
    condition, with which result, into which state. *)

Inductive effect (w : World) : Op -> Result -> World -> Prop :=
  | effect_create_user name balance :
      effect w (OpCreateUser name balance)
        (RUser (length (user_objs (heap w))))
        (mkWorld
           (MiniVenmo.mk (MiniVenmo.users (app w) ++ [length (user_objs (heap w))]))
           (mkHeap (user_objs (heap w) ++ [User.init name balance])
              (card_objs (heap w))))
  | effect_credit_card balance :
      effect w (OpCreditCard balance)
        (RCard (length (card_objs (heap w))))
        (mkWorld (app w)
           (mkHeap (user_objs (heap w))
              (card_objs (heap w) ++ [CreditCard.init balance])))
  | effect_charge c amount card :
      card_objs (heap w) !! c = Some card ->
      CreditCard.balance card >= amount ->
      effect w (OpCharge c amount) (RBool true)
        (mkWorld (app w)
           (mkHeap (user_objs (heap w))
              (<[c := CreditCard.mk (CreditCard.balance card - amount)]>
                 (card_objs (heap w)))))
  | effect_charge_refused c amount card :
      card_objs (heap w) !! c = Some card ->
      CreditCard.balance card < amount ->
      effect w (OpCharge c amount) (RBool false) w
  | effect_assign_credit_card u c ua :
      user_objs (heap w) !! u = Some ua ->
      (forall k, c = Some k -> is_Some (card_objs (heap w) !! k)) ->
      effect w (OpAssignCreditCard u c) RNone
        (mkWorld (app w)
           (mkHeap (<[u := User.set_credit_card c ua]> (user_objs (heap w)))
              (card_objs (heap w))))
  | effect_add_friend a b ua ub :
      b <> a ->
      user_objs (heap w) !! a = Some ua ->
      user_objs (heap w) !! b = Some ub ->
      b ∉ User.friends ua ->
      effect w (OpAddFriend a b) (RBool true)
        (mkWorld (app w)
           (mkHeap
              (<[b := User.mk (User.name ub) (User.balance ub) (User.credit_card ub)
                        (User.friends ub ++ [a])
                        (User.activity_log ub ++
                           [User.name ub +:+ " and " +:+ User.name ua
                              +:+ " are now friends"])]>
                 (<[a := User.mk (User.name ua) (User.balance ua)
                           (User.credit_card ua) (User.friends ua ++ [b])
                           (User.activity_log ua ++
                              [User.name ua +:+ " and " +:+ User.name ub
                                 +:+ " are now friends"])]>
                    (user_objs (heap w))))
              (card_objs (heap w))))
  | effect_add_friend_self a :
      effect w (OpAddFriend a a) (RBool false) w
  | effect_add_friend_again a b ua :
      user_objs (heap w) !! a = Some ua ->
      b ∈ User.friends ua ->
      effect w (OpAddFriend a b) (RBool false) w
  | effect_pay_cash a b ua ub m d :
      b <> a ->
      user_objs (heap w) !! a = Some ua ->
      user_objs (heap w) !! b = Some ub ->
      0 < m ->
      User.balance ua >= m ->
      effect w (OpPay a b m d) (RBool true)
        (mkWorld (app w)
           (mkHeap
              (<[b := User.mk (User.name ub) (User.balance ub + m)
                        (User.credit_card ub) (User.friends ub)
                        (User.activity_log ub ++
                           [paid_entry (User.name ua) (User.name ub) m d])]>
                 (<[a := User.mk (User.name ua) (User.balance ua - m)
                           (User.credit_card ua) (User.friends ua)
                           (User.activity_log ua ++
                              [paid_entry (User.name ua) (User.name ub) m d])]>
                    (user_objs (heap w))))
              (card_objs (heap w))))
  | effect_pay_credit a b ua ub c card m d :
      b <> a ->
      user_objs (heap w) !! a = Some ua ->
      user_objs (heap w) !! b = Some ub ->
      0 < m ->
      User.balance ua < m ->
      User.credit_card ua = Some c ->
      card_objs (heap w) !! c = Some card ->
      CreditCard.balance card >= m ->
      effect w (OpPay a b m d) (RBool true)
        (mkWorld (app w)
           (mkHeap
              (<[b := User.mk (User.name ub) (User.balance ub + m)
                        (User.credit_card ub) (User.friends ub)
                        (User.activity_log ub ++
                           [paid_entry (User.name ua) (User.name ub) m d])]>
                 (<[a := User.mk (User.name ua) (User.balance ua)
                           (User.credit_card ua) (User.friends ua)
                           (User.activity_log ua ++
                              [credit_entry (User.name ub) m d])]>
                    (user_objs (heap w))))
              (<[c := CreditCard.mk (CreditCard.balance card - m)]>
                 (card_objs (heap w)))))
  | effect_pay_self a m d :
      effect w (OpPay a a m d) (RBool false) w
  | effect_pay_not_positive a b m d :
      m <= 0 ->
      effect w (OpPay a b m d) (RBool false) w
  | effect_pay_no_card a b ua m d :
      user_objs (heap w) !! a = Some ua ->
      User.balance ua < m ->
      User.credit_card ua = None ->
      effect w (OpPay a b m d) (RBool false) w
  | effect_pay_card_short a b ua c card m d :
      user_objs (heap w) !! a = Some ua ->
      User.balance ua < m ->
      User.credit_card ua = Some c ->
      card_objs (heap w) !! c = Some card ->
      CreditCard.balance card < m ->
      effect w (OpPay a b m d) (RBool false) w
  | effect_retrieve_activity a ua :
      user_objs (heap w) !! a = Some ua ->
      effect w (OpRetrieveActivity a) (RStrings (User.activity_log ua)) w
  | effect_render_feed :
      registry_allocated (app w) (heap w) ->
      effect w OpRenderFeed
        (RStrings (first_occurrences (all_entries (heap w) (app w)))) w.

(** ** Money in the system *)




(** No balance is negative. *)
Definition no_debt (h : Heap) : Prop :=
  Forall (fun u => 0 <= User.balance u) (user_objs h) /\
  Forall (fun c => 0 <= CreditCard.balance c) (card_objs h).

(** A call that does not open a user or a card with a negative balance. *)
Definition opens_no_debt (op : Op) : Prop :=
  match op with
  | OpCreateUser _ balance => 0 <= balance
  | OpCreditCard balance => 0 <= balance
  | _ => True
  end.

(** ** How a user object may change

    [u'] is a later state of the object [u]: same name, and a log and a
    friend list that only gained entries at the end. *)

Definition user_le (u u' : User.t) : Prop :=
  User.name u' = User.name u /\
  User.activity_log u `prefix_of` User.activity_log u' /\
  User.friends u `prefix_of` User.friends u'.

Definition users_le (l l' : list User.t) : Prop :=
  forall r u, l !! r = Some u -> exists u', l' !! r = Some u' /\ user_le u u'.

(** The message logged for a new friendship. *)
Definition friends_entry (me friend : string) : string :=
  me +:+ " and " +:+ friend +:+ " are now friends".

(** Every friendship of every user is in that user's log. *)
Definition friendships_logged (h : Heap) : Prop :=
  forall a b ua ub,
    user_objs h !! a = Some ua -> user_objs h !! b = Some ub ->
    b ∈ User.friends ua ->
    friends_entry (User.name ua) (User.name ub) ∈ User.activity_log ua.

(** A friend-add or a payment that returned true and has [a] as one of
    its two users. *)
Definition involves (a : uref) (call : Op * Result) : bool :=
  match call with
  | (OpAddFriend x y, RBool true) => bool_decide (a = x \/ a = y)
  | (OpPay x y _ _, RBool true) => bool_decide (a = x \/ a = y)
  | _ => false
  end.

(** ** Sample states

    The state built by the tests' [setUp]: Alice (50, with a card of
    100) and Bob (20), both registered. *)

Definition alice : User.t := User.mk "Alice" 50 (Some 0%nat) [] [].
Definition bob : User.t := User.mk "Bob" 20 None [] [].

Definition setUp_heap : Heap := mkHeap [alice; bob] [CreditCard.mk 100].
Definition setUp_world : World := mkWorld (MiniVenmo.mk [0%nat; 1%nat]) setUp_heap.

Definition setUp_ops : list Op :=
  [OpCreateUser "Alice" 50; OpCreateUser "Bob" 20; OpCreditCard 100;
   OpAssignCreditCard 0 (Some 0%nat)].

(** [self.user_a.balance = v], as several tests do before paying. *)
Definition with_balances (alice_balance card_balance : Z) : Heap :=
  mkHeap [User.set_balance alice_balance alice; bob] [CreditCard.mk card_balance].

(** Alice and Bob after [alice.add_friend(bob)]. *)
Definition befriended_ops : list Op := setUp_ops ++ [OpAddFriend 0 1].

Definition befriended_heap : Heap :=
  mkHeap
    [User.mk "Alice" 50 (Some 0%nat) [1%nat] ["Alice and Bob are now friends"];
     User.mk "Bob" 20 None [0%nat] ["Bob and Alice are now friends"]]
    [CreditCard.mk 100].

Definition befriended_world : World :=
  mkWorld (MiniVenmo.mk [0%nat; 1%nat]) befriended_heap.

(** Alice (balance 5, card 100) after paying Bob 20 for lunch by card. *)
Definition after_lunch_heap : Heap :=
  mkHeap
    [User.mk "Alice" 5 (Some 0%nat) [] ["Paid Bob $20.00 for Lunch (credit card)"];
     User.mk "Bob" 40 None [] ["Alice paid Bob $20.00 for Lunch"]]
    [CreditCard.mk 80].

(** Alice and Bob, friends, after Alice paid Bob 10 for coffee. *)
Definition after_coffee_heap : Heap :=
  mkHeap
    [User.mk "Alice" 40 (Some 0%nat) [1%nat]
       ["Alice and Bob are now friends"; "Alice paid Bob $10.00 for Coffee"];
     User.mk "Bob" 30 None [0%nat]
       ["Bob and Alice are now friends"; "Alice paid Bob $10.00 for Coffee"]]
    [CreditCard.mk 100].


(** The script of [main]. *)
Definition main_ops : list Op :=
  [OpCreateUser "Alice" 100; OpCreateUser "Bob" 50; OpCreateUser "Charlie" 0;
   OpCreditCard 200; OpAssignCreditCard 0 (Some 0%nat);
   OpCreditCard 100; OpAssignCreditCard 2 (Some 1%nat);
   OpAddFriend 0 1; OpAddFriend 1 2;
   OpPay 0 1 25 "lunch"; OpPay 1 2 10 "movie ticket"; OpPay 2 0 5 "snack";
   OpPay 0 0 10 "self-payment"; OpPay 2 0 50 "gift";
   OpRenderFeed].

(** * Part II: the classes over Python's numbers

    The annotations of the source say [float]; the tests and [main] pass
    [int]; a fresh user's default balance is the [int] 0.  Python decides
    at run time: [int] with [int] is exact, and as soon as a [float] takes
    part the [int] is converted to binary64 (raising [OverflowError] when
    it is too large) and the operation is the rounded binary64 one.
    Comparisons between [int] and [float] are exact and never raise.  This
    part repeats [CreditCard.charge], [User.pay] and [render_feed] over
    such numbers, with the exception made explicit. *)

Module Py.

Inductive number : Type :=
  | Int (z : Z)
  | Float (f : float).

(** [float(n)] for [n >= 0]: the nearest binary64 value, ties to even, as
    a mantissa of at most 53 bits and an exponent. *)
Definition round_to_double (n : Z) : Z * Z :=
  if n <? 2 ^ 53 then (n, 0)
  else
    let e := Z.log2 n - 52 in
    let q := n / 2 ^ e in
    let r := n mod 2 ^ e in
    let half := 2 ^ (e - 1) in
    let up := if r <? half then false else if half <? r then true else Z.odd q in
    (if up then q + 1 else q, e).

(** [float(z)]; [None] is [OverflowError: int too large to convert to
    float]. *)
Definition int_to_float (z : Z) : option float :=
  let '(q, e) := round_to_double (Z.abs z) in
  if 2 ^ 1024 <=? q * 2 ^ e then None
  else
    let f := Z.ldexp (PrimFloat.of_uint63 (Uint63.of_Z q)) e in
    Some (if z <? 0 then PrimFloat.opp f else f).

Definition to_float (x : number) : option float :=
  match x with
  | Int z => int_to_float z
  | Float f => Some f
  end.

(** [x + y] and [x - y]; [None] is the [OverflowError] of the
    conversion. *)
Definition add (x y : number) : option number :=
  match x, y with
  | Int a, Int b => Some (Int (a + b))
  | _, _ => a ← to_float x; b ← to_float y; Some (Float (PrimFloat.add a b))
  end.

Definition sub (x y : number) : option number :=
  match x, y with
  | Int a, Int b => Some (Int (a - b))
  | _, _ => a ← to_float x; b ← to_float y; Some (Float (PrimFloat.sub a b))
  end.

(** The exact order between an [int] and a [float]; [None] for nan. *)
Definition compare_int_float (z : Z) (f : float) : option comparison :=
  match Prim2SF f with
  | S754_nan => None
  | S754_zero _ => Some (z ?= 0)
  | S754_infinity s => Some (if s then Gt else Lt)
  | S754_finite s m e =>
      let v := if s then Z.neg m else Z.pos m in
      Some (if 0 <=? e then z ?= v * 2 ^ e else z * 2 ^ (- e) ?= v)
  end.

(** [x <= y], [x < y] and [x >= y]. *)
Definition le (x y : number) : bool :=
  match x, y with
  | Int a, Int b => a <=? b
  | Float a, Float b => PrimFloat.leb a b
  | Int a, Float b =>
      match compare_int_float a b with Some Lt | Some Eq => true | _ => false end
  | Float a, Int b =>
      match compare_int_float b a with Some Gt | Some Eq => true | _ => false end
  end.

Definition lt (x y : number) : bool :=
  match x, y with
  | Int a, Int b => a <? b
  | Float a, Float b => PrimFloat.ltb a b
  | Int a, Float b =>
      match compare_int_float a b with Some Lt => true | _ => false end
  | Float a, Int b =>
      match compare_int_float b a with Some Gt => true | _ => false end
  end.

Definition ge (x y : number) : bool := le y x.

(** A count of hundredths as text: the units, a point, two digits. *)
Definition two_digits (n : Z) : string :=
  if n <? 10 then "0" +:+ pretty n else pretty n.

Definition hundredths_text (c : Z) : string :=
  pretty (c / 100) +:+ "." +:+ two_digits (c mod 100).

(** [m * 2^e] in hundredths, rounded to the nearest, ties to even. *)
Definition round_hundredths (m e : Z) : Z :=
  if 0 <=? e then m * 2 ^ e * 100
  else
    let d := 2 ^ (- e) in
    let q := (m * 100) / d in
    let r := (m * 100) mod d in
    if 2 * r <? d then q
    else if d <? 2 * r then q + 1
    else if Z.even q then q else q + 1.

(** [f"{x:.2f}"] for a [float]. *)
Definition format_float (f : float) : string :=
  match Prim2SF f with
  | S754_zero s => (if s then "-" else "") +:+ "0.00"
  | S754_infinity s => if s then "-inf" else "inf"
  | S754_nan => "nan"
  | S754_finite s m e =>
      (if s then "-" else "") +:+ hundredths_text (round_hundredths (Z.pos m) e)
  end.

(** [f"{x:.2f}"].  An [int] is converted to [float] first, so it is
    printed as the digits of the nearest binary64 value, or the
    conversion raises. *)
Definition format_2f (x : number) : option string :=
  match x with
  | Int z =>
      let '(q, e) := round_to_double (Z.abs z) in
      if 2 ^ 1024 <=? q * 2 ^ e then None
      else Some ((if z <? 0 then "-" else "") +:+ pretty (q * 2 ^ e) +:+ ".00")
  | Float f => Some (format_float f)
  end.

(** ** class CreditCard *)
Module CreditCard.

Record t : Type := mk { balance : number }.

(** [CreditCard.charge]: the returned boolean and the object after the
    call; [None] when the subtraction raises, which leaves the object as
    it was. *)
Definition charge (self : t) (amount : number) : option (bool * t) :=
  if ge (balance self) amount
  then v ← sub (balance self) amount; Some (true, mk v)
  else Some (false, self).

End CreditCard.

(** ** class User: the object *)
Module User.

Record t : Type := mk {
  name : string;
  balance : number;
  credit_card : option cref;
  friends : list uref;
  activity_log : list string
}.

Definition set_balance (v : number) (u : t) : t :=
  mk (name u) v (credit_card u) (friends u) (activity_log u).

Definition activity_log_append (entry : string) (u : t) : t :=
  mk (name u) (balance u) (credit_card u) (friends u) (activity_log u ++ [entry]).

End User.

(** ** The object store, and calls that may raise *)

Record Heap : Type := mkHeap {
  user_objs : list User.t;
  card_objs : list CreditCard.t
}.

(** A call returns a value, or raises [OverflowError]; either way it
    leaves a store behind.  [Stuck] is a dereference of a reference that
    was never allocated, which no Python program can produce. *)
Inductive outcome (A : Type) : Type :=
  | Returns (x : A) (h : Heap)
  | Raises (h : Heap)
  | Stuck.

Arguments Returns {A} x h.
Arguments Raises {A} h.
Arguments Stuck {A}.

Definition M (A : Type) : Type := Heap -> outcome A.

Definition ret {A} (x : A) : M A := fun h => Returns x h.

Definition bind {A B} (m : M A) (k : A -> M B) : M B :=
  fun h => match m h with
           | Returns x h' => k x h'
           | Raises h' => Raises h'
           | Stuck => Stuck
           end.

Declare Scope py_scope.
Notation "x <- m ;; k" := (bind m (fun x => k))
  (at level 100, m at next level, right associativity) : py_scope.
Notation "m ;;; k" := (bind m (fun _ => k))
  (at level 100, right associativity) : py_scope.
Local Open Scope py_scope.

(** The value of an arithmetic or formatting expression, or its
    exception. *)
Definition eval {A} (o : option A) : M A :=
  fun h => match o with
           | Some x => Returns x h
           | None => Raises h
           end.

Definition user_get (r : uref) : M User.t :=
  fun h => match user_objs h !! r with
           | Some u => Returns u h
           | None => Stuck
           end.

Definition user_update (r : uref) (f : User.t -> User.t) : M unit :=
  fun h => match user_objs h !! r with
           | Some u => Returns tt (mkHeap (<[r := f u]> (user_objs h)) (card_objs h))
           | None => Stuck
           end.

Definition card_get (r : cref) : M CreditCard.t :=
  fun h => match card_objs h !! r with
           | Some c => Returns c h
           | None => Stuck
           end.

Definition card_update (r : cref) (f : CreditCard.t -> CreditCard.t) : M unit :=
  fun h => match card_objs h !! r with
           | Some c => Returns tt (mkHeap (user_objs h) (<[r := f c]> (card_objs h)))
           | None => Stuck
           end.

(** The two payment messages, around the formatted amount. *)
Definition paid_entry (payer payee amount description : string) : string :=
  payer +:+ " paid " +:+ payee +:+ " $" +:+ amount +:+ " for " +:+ description.

Definition credit_entry (payee amount description : string) : string :=
  "Paid " +:+ payee +:+ " $" +:+ amount +:+ " for " +:+ description
    +:+ " (credit card)".

(** [User.pay] *)
Definition pay (self recipient : uref) (amount : number) (description : string) : M bool :=
  if decide (recipient = self) then ret false
  else if le amount (Int 0) then ret false
  else
    me <- user_get self ;;
    if ge (User.balance me) amount then
      (* self.balance -= amount *)
      me <- user_get self ;;
      v <- eval (sub (User.balance me) amount) ;;
      user_update self (User.set_balance v) ;;;
      (* recipient.balance += amount *)
      rc <- user_get recipient ;;
      v <- eval (add (User.balance rc) amount) ;;
      user_update recipient (User.set_balance v) ;;;
      (* the two log entries *)
      me <- user_get self ;;
      rc <- user_get recipient ;;
      text <- eval (format_2f amount) ;;
      user_update self
        (User.activity_log_append
           (paid_entry (User.name me) (User.name rc) text description)) ;;;
      me <- user_get self ;;
      rc <- user_get recipient ;;
      text <- eval (format_2f amount) ;;
      user_update recipient
        (User.activity_log_append
           (paid_entry (User.name me) (User.name rc) text description)) ;;;
      ret true
    else
      match User.credit_card me with
      | None => ret false
      | Some c =>
          card <- card_get c ;;
          if ge (CreditCard.balance card) amount then
            (* self.credit_card.balance -= amount *)
            card <- card_get c ;;
            v <- eval (sub (CreditCard.balance card) amount) ;;
            card_update c (fun _ => CreditCard.mk v) ;;;
            (* recipient.balance += amount *)
            rc <- user_get recipient ;;
            v <- eval (add (User.balance rc) amount) ;;
            user_update recipient (User.set_balance v) ;;;
            (* the two log entries *)
            rc <- user_get recipient ;;
            text <- eval (format_2f amount) ;;
            user_update self
              (User.activity_log_append
                 (credit_entry (User.name rc) text description)) ;;;
            me <- user_get self ;;
            rc <- user_get recipient ;;
            text <- eval (format_2f amount) ;;
            user_update recipient
              (User.activity_log_append
                 (paid_entry (User.name me) (User.name rc) text description)) ;;;
            ret true
          else ret false
      end.

(** [User.retrieve_activity] *)
Definition retrieve_activity (self : uref) : M (list string) :=
  me <- user_get self ;; ret (User.activity_log me).

(** The outer loop of [render_feed]; the inner loop is [feed_extend]. *)
Fixpoint feed_loop (users : list uref) (feed : list string) : M (list string) :=
  match users with
  | [] => ret feed
  | user :: rest =>
      log <- retrieve_activity user ;;
      feed_loop rest (feed_extend feed log)
  end.

(** [MiniVenmo.render_feed] *)
Definition render_feed (app : MiniVenmo.t) : M (list string) :=
  feed_loop (MiniVenmo.users app) [].

(** The log behind a reference, and all logs in registry order. *)
Definition log_of (h : Heap) (r : uref) : list string :=
  match user_objs h !! r with
  | Some u => User.activity_log u
  | None => []
  end.

Definition all_entries (h : Heap) (app : MiniVenmo.t) : list string :=
  concat (log_of h <$> MiniVenmo.users app).

End Py.

(** * Properties *)

(** ** The model on the repository's own scenarios *)

Example setUp_runs :
  run setUp_ops fresh_world
  = Some ([RUser 0; RUser 1; RCard 0; RNone], setUp_world).
Proof. reflexivity. Qed.

Example main_runs :
  fst <$> run main_ops fresh_world
  = Some [RUser 0; RUser 1; RUser 2; RCard 0; RNone; RCard 1; RNone;
          RBool true; RBool true;
          RBool true; RBool true; RBool true; RBool false; RBool true;
          RStrings ["Alice and Bob are now friends";
                    "Alice paid Bob $25.00 for lunch";
                    "Charlie paid Alice $5.00 for snack";
                    "Charlie paid Alice $50.00 for gift";
                    "Bob and Alice are now friends";
                    "Bob and Charlie are now friends";
                    "Bob paid Charlie $10.00 for movie ticket";
                    "Charlie and Bob are now friends";
                    "Paid Alice $50.00 for gift (credit card)"]].
Proof. vm_compute. reflexivity. Qed.

Example main_balances :
  (fun '(_, w) =>
     (User.balance <$> user_objs (heap w), CreditCard.balance <$> card_objs (heap w)))
    <$> run main_ops fresh_world
  = Some ([130; 65; 5], [200; 50]).
Proof. vm_compute. reflexivity. Qed.

Example test_pay_more_than_total_balance_and_credit :
  pay 0 1 30 "Over Total Balance" (with_balances 10 15)
  = Some (false, with_balances 10 15).
Proof. reflexivity. Qed.

Example test_large_payment_with_sufficient_credit :
  (fun '(ok, h) => (ok, CreditCard.balance <$> card_objs h, User.balance <$> user_objs h))
    <$> pay 0 1 4500 "Large Payment" (with_balances 0 5000)
  = Some (true, [500], [0; 4520]).
Proof. vm_compute. reflexivity. Qed.

(** ** Stepping through the store monad *)

Section Steps.
Context {A : Type}.

Lemma bind_ret {B} (x : B) (k : B -> M A) h : bind (ret x) k h = k x h.
Proof. reflexivity. Qed.

Lemma bind_user_get r u (k : User.t -> M A) h :
  user_objs h !! r = Some u -> bind (user_get r) k h = k u h.
Proof. intros H. unfold bind, user_get. by rewrite H. Qed.

Lemma bind_user_update r f u (k : unit -> M A) h :
  user_objs h !! r = Some u ->
  bind (user_update r f) k h
  = k tt (mkHeap (<[r := f u]> (user_objs h)) (card_objs h)).
Proof. intros H. unfold bind, user_update. by rewrite H. Qed.

Lemma bind_card_get r c (k : CreditCard.t -> M A) h :
  card_objs h !! r = Some c -> bind (card_get r) k h = k c h.
Proof. intros H. unfold bind, card_get. by rewrite H. Qed.

Lemma bind_card_update r f c (k : unit -> M A) h :
  card_objs h !! r = Some c ->
  bind (card_update r f) k h
  = k tt (mkHeap (user_objs h) (<[r := f c]> (card_objs h))).
Proof. intros H. unfold bind, card_update. by rewrite H. Qed.
End Steps.

(** Reads through a stack of in-place updates. *)
Ltac resolve_lookup :=
  simpl;
  repeat first
    [ rewrite list_lookup_insert_eq by (rewrite ?length_insert; lia)
    | rewrite list_lookup_insert_ne by lia ];
  first [eassumption | reflexivity].

Ltac step :=
  first
    [ rewrite bind_ret
    | erewrite bind_user_get by resolve_lookup
    | erewrite bind_user_update by resolve_lookup
    | erewrite bind_card_get by resolve_lookup
    | erewrite bind_card_update by resolve_lookup ].

(** ** CreditCard.charge *)





(** ** User.pay *)

(** Two users updated in place: what a read finds afterwards. *)
Lemma lookup_two_updates (l : list User.t) a b ua' ub' :
  a <> b -> (a < length l)%nat -> (b < length l)%nat ->
  <[b := ub']> (<[a := ua']> l) !! a = Some ua' /\
  <[b := ub']> (<[a := ua']> l) !! b = Some ub' /\
  (forall x, x <> a -> x <> b -> <[b := ub']> (<[a := ua']> l) !! x = l !! x).
Proof.
  intros Hab La Lb. split_and!.
  - resolve_lookup.
  - resolve_lookup.
  - intros x Hxa Hxb. resolve_lookup.
Qed.

(** The store after a payment from the balance. *)
Lemma pay_cash_store h a b ua ub m d :
  a <> b ->
  user_objs h !! a = Some ua ->
  user_objs h !! b = Some ub ->
  0 < m ->
  User.balance ua >= m ->
  pay a b m d h
  = Some (true,
          mkHeap
            (<[b := User.mk (User.name ub) (User.balance ub + m) (User.credit_card ub)
                      (User.friends ub)
                      (User.activity_log ub ++
                         [paid_entry (User.name ua) (User.name ub) m d])]>
               (<[a := User.mk (User.name ua) (User.balance ua - m)
                         (User.credit_card ua) (User.friends ua)
                         (User.activity_log ua ++
                            [paid_entry (User.name ua) (User.name ub) m d])]>
                  (user_objs h)))
            (card_objs h)).
Proof.
  intros Hab Ha Hb Hm Hbal.
  pose proof (lookup_lt_Some _ _ _ Ha) as La.
  pose proof (lookup_lt_Some _ _ _ Hb) as Lb.
  unfold pay.
  destruct (decide (b = a)) as [->|_]; [done|].
  destruct (decide (m <= 0)); [lia|].
  step.
  destruct (decide (User.balance ua >= m)); [|lia].
  do 8 step. unfold ret. simpl.
  rewrite (list_insert_insert_ne _ a b) by lia.
  by rewrite !list_insert_insert_eq.
Qed.

(** The store after a payment from the credit card. *)
Lemma pay_credit_store h a b ua ub c card m d :
  a <> b ->
  user_objs h !! a = Some ua ->
  user_objs h !! b = Some ub ->
  0 < m ->
  User.balance ua < m ->
  User.credit_card ua = Some c ->
  card_objs h !! c = Some card ->
  CreditCard.balance card >= m ->
  pay a b m d h
  = Some (true,
          mkHeap
            (<[b := User.mk (User.name ub) (User.balance ub + m) (User.credit_card ub)
                      (User.friends ub)
                      (User.activity_log ub ++
                         [paid_entry (User.name ua) (User.name ub) m d])]>
               (<[a := User.mk (User.name ua) (User.balance ua) (User.credit_card ua)
                         (User.friends ua)
                         (User.activity_log ua ++
                            [credit_entry (User.name ub) m d])]>
                  (user_objs h)))
            (<[c := CreditCard.mk (CreditCard.balance card - m)]> (card_objs h))).
Proof.
  intros Hab Ha Hb Hm Hbal Hcc Hc Hcov.
  pose proof (lookup_lt_Some _ _ _ Ha) as La.
  pose proof (lookup_lt_Some _ _ _ Hb) as Lb.
  unfold pay.
  destruct (decide (b = a)) as [->|_]; [done|].
  destruct (decide (m <= 0)); [lia|].
  step.
  destruct (decide (User.balance ua >= m)); [lia|].
  destruct (User.credit_card ua) as [c'|] eqn:Hcc'; [|done]. simplify_eq.
  step.
  destruct (decide (CreditCard.balance card >= m)); [|lia].
  do 7 step. unfold ret. simpl.
  rewrite (list_insert_insert_ne _ a b) by lia.
  rewrite !list_insert_insert_eq.
  unfold User.activity_log_append, User.set_balance. simpl.
  by rewrite Hcc'.
Qed.

(** The same two facts, as reads of the two users afterwards. *)
Lemma pay_cash_effect h a b ua ub m d :
  a <> b ->
  user_objs h !! a = Some ua ->
  user_objs h !! b = Some ub ->
  0 < m ->
  User.balance ua >= m ->
  exists h',
    pay a b m d h = Some (true, h') /\
    user_objs h' !! a
    = Some (User.mk (User.name ua) (User.balance ua - m) (User.credit_card ua)
              (User.friends ua)
              (User.activity_log ua ++ [paid_entry (User.name ua) (User.name ub) m d])) /\
    user_objs h' !! b
    = Some (User.mk (User.name ub) (User.balance ub + m) (User.credit_card ub)
              (User.friends ub)
              (User.activity_log ub ++ [paid_entry (User.name ua) (User.name ub) m d])) /\
    (forall x, x <> a -> x <> b -> user_objs h' !! x = user_objs h !! x).
Proof.
  intros Hab Ha Hb Hm Hbal.
  eexists. split; [by apply pay_cash_store|]. simpl.
  apply lookup_two_updates; [done | by eapply lookup_lt_Some..].
Qed.










(** ** User.add_friend *)

(** The store after a successful [a.add_friend(b)]. *)
Lemma add_friend_success h a b ua ub :
  b <> a ->
  user_objs h !! a = Some ua ->
  user_objs h !! b = Some ub ->
  b ∉ User.friends ua ->
  add_friend a b h
  = Some (true,
          mkHeap
            (<[b := User.mk (User.name ub) (User.balance ub) (User.credit_card ub)
                      (User.friends ub ++ [a])
                      (User.activity_log ub ++
                         [User.name ub +:+ " and " +:+ User.name ua
                            +:+ " are now friends"])]>
               (<[a := User.mk (User.name ua) (User.balance ua) (User.credit_card ua)
                         (User.friends ua ++ [b])
                         (User.activity_log ua ++
                            [User.name ua +:+ " and " +:+ User.name ub
                               +:+ " are now friends"])]>
                  (user_objs h)))
            (card_objs h)).
Proof.
  intros Hba Ha Hb Hnew.
  pose proof (lookup_lt_Some _ _ _ Ha) as La.
  pose proof (lookup_lt_Some _ _ _ Hb) as Lb.
  unfold add_friend.
  destruct (decide (b = a)); [done|].
  step. unfold friend_in. rewrite bool_decide_eq_false_2 by done.
  do 8 step. unfold ret. simpl.
  rewrite (list_insert_insert_ne _ a b) by lia.
  by rewrite !list_insert_insert_eq.
Qed.

(** A refused [a.add_friend(b)] changes nothing. *)
Lemma add_friend_refused h a b ua :
  user_objs h !! a = Some ua ->
  b = a \/ b ∈ User.friends ua ->
  add_friend a b h = Some (false, h).
Proof.
  intros Ha Hcase. unfold add_friend.
  destruct (decide (b = a)); [done|].
  step. unfold friend_in.
  destruct Hcase as [?|Hin]; [done|].
  by rewrite bool_decide_eq_true_2.
Qed.

(** C5: [a.add_friend(b)] returns false and changes nothing when [b] is
    [a] or is already in [a]'s friend list.  Otherwise it returns true,
    puts [b] in [a]'s list and [a] in [b]'s, appends the single entry
    "<a> and <b> are now friends" to [a]'s log and the single entry
    "<b> and <a> are now friends" to [b]'s log, and touches no balance,
    no card and no other user. *)
Theorem add_friend_behaviour h a b ua ub :
  user_objs h !! a = Some ua ->
  user_objs h !! b = Some ub ->
  (b = a \/ b ∈ User.friends ua -> add_friend a b h = Some (false, h)) /\
  (b <> a -> b ∉ User.friends ua ->
   exists h',
     add_friend a b h = Some (true, h') /\
     user_objs h' !! a
     = Some (User.mk (User.name ua) (User.balance ua) (User.credit_card ua)
               (User.friends ua ++ [b])
               (User.activity_log ua ++
                  [User.name ua +:+ " and " +:+ User.name ub +:+ " are now friends"])) /\
     user_objs h' !! b
     = Some (User.mk (User.name ub) (User.balance ub) (User.credit_card ub)
               (User.friends ub ++ [a])
               (User.activity_log ub ++
                  [User.name ub +:+ " and " +:+ User.name ua +:+ " are now friends"])) /\
     (forall x, x <> a -> x <> b -> user_objs h' !! x = user_objs h !! x) /\
     card_objs h' = card_objs h).
Proof.
  intros Ha Hb.
  pose proof (lookup_lt_Some _ _ _ Ha) as La.
  pose proof (lookup_lt_Some _ _ _ Hb) as Lb.
  split.
  - intros Hcase. by eapply add_friend_refused.
  - intros Hba Hnew. eexists. split; [by apply add_friend_success|].
    simpl. split_and!.
    + resolve_lookup.
    + resolve_lookup.
    + intros x Hxa Hxb. resolve_lookup.
    + done.
Qed.

Lemma add_friend_behaviour_witness :
  add_friend 0 0 setUp_heap = Some (false, setUp_heap) /\
  exists h',
    add_friend 0 1 setUp_heap = Some (true, h') /\
    user_objs h' !! 0%nat
    = Some (User.mk "Alice" 50 (Some 0%nat) [1%nat] ["Alice and Bob are now friends"]) /\
    user_objs h' !! 1%nat
    = Some (User.mk "Bob" 20 None [0%nat] ["Bob and Alice are now friends"]).
Proof.
  split.
  - apply (add_friend_behaviour setUp_heap 0 0 alice alice);
      [reflexivity | reflexivity | left; reflexivity].
  - destruct (add_friend_behaviour setUp_heap 0 1 alice bob) as [_ Hok];
      [reflexivity | reflexivity |].
    destruct Hok as (h' & Hadd & Ha & Hb & _); [lia | apply not_elem_of_nil |].
    exists h'. split_and!; [exact Hadd | exact Ha | exact Hb].
Defined.

(** ** MiniVenmo.render_feed *)

Lemma first_occurrences_elem x l : x ∈ first_occurrences l <-> x ∈ l.
Proof.
  induction l as [|y l IH]; simpl; [done|].
  rewrite !elem_of_cons, list_elem_of_filter, IH.
  destruct (decide (x = y)); naive_solver.
Qed.

Lemma first_occurrences_NoDup l : NoDup (first_occurrences l).
Proof.
  induction l as [|y l IH]; simpl; [constructor|].
  constructor; [|by apply NoDup_filter].
  rewrite list_elem_of_filter. naive_solver.
Qed.

(** The inner loop, run from a feed [acc], appends the first occurrences
    of the entries that [acc] does not hold yet. *)
Lemma feed_extend_first_occurrences l acc :
  feed_extend acc l = acc ++ filter (fun y => y ∉ acc) (first_occurrences l).
Proof.
  revert acc. induction l as [|x l IH]; intros acc; simpl.
  - by rewrite app_nil_r.
  - unfold feed_extend in *. rewrite IH. unfold feed_push.
    case_bool_decide as Hx.
    + rewrite filter_cons_False by naive_solver.
      rewrite list_filter_filter. f_equal.
      apply list_filter_iff. intros y. split; [|naive_solver].
      intros Hy. split; [done|]. by intros ->.
    + rewrite filter_cons_True by done.
      rewrite <- app_assoc. simpl. do 2 f_equal.
      rewrite list_filter_filter.
      apply list_filter_iff. intros y.
      rewrite not_elem_of_app, list_elem_of_singleton. naive_solver.
Qed.

Lemma feed_extend_app acc l1 l2 :
  feed_extend acc (l1 ++ l2) = feed_extend (feed_extend acc l1) l2.
Proof. apply foldl_app. Qed.

Lemma bind_retrieve_activity {A} r u (k : list string -> M A) h :
  user_objs h !! r = Some u ->
  bind (retrieve_activity r) k h = k (User.activity_log u) h.
Proof. intros H. unfold retrieve_activity, bind, user_get, ret. by rewrite H. Qed.

Lemma feed_loop_all_entries users h acc :
  Forall (fun r => is_Some (user_objs h !! r)) users ->
  feed_loop users acc h
  = Some (feed_extend acc (concat (log_of h <$> users)), h).
Proof.
  intros Hall. revert acc.
  induction Hall as [|r users [u Hu] _ IH]; intros acc; simpl; [done|].
  rewrite (bind_retrieve_activity _ _ _ _ Hu).
  rewrite IH, feed_extend_app. unfold log_of at 2. by rewrite Hu.
Qed.

(** [render_feed] computes what the specification describes. *)
Lemma render_feed_spec app h :
  Forall (fun r => is_Some (user_objs h !! r)) (MiniVenmo.users app) ->
  render_feed app h = Some (first_occurrences (all_entries h app), h).
Proof.
  intros Hall. unfold render_feed, all_entries.
  rewrite feed_loop_all_entries by done.
  rewrite feed_extend_first_occurrences. simpl. do 2 f_equal.
  induction (first_occurrences _) as [|x l IH]; [done|].
  rewrite filter_cons_True by apply not_elem_of_nil. by f_equal.
Qed.




Lemma all_entries_elem h app x :
  x ∈ all_entries h app <-> exists r, r ∈ MiniVenmo.users app /\ x ∈ log_of h r.
Proof.
  unfold all_entries. induction (MiniVenmo.users app) as [|r rs IH]; simpl.
  - split; [by intros ?%elem_of_nil | by intros (? & ?%elem_of_nil & _)].
  - rewrite elem_of_app, IH. split.
    + intros [Hx|(r' & Hr' & Hx)];
        [exists r; split; [left | done] | exists r'; split; [by right | done]].
    + intros (r' & [->|Hr']%elem_of_cons & Hx); [by left | right; by exists r'].
Qed.

Lemma log_of_lookup h r u : user_objs h !! r = Some u -> log_of h r = User.activity_log u.
Proof. intros H. unfold log_of. by rewrite H. Qed.








(** ** The friends relation along a run *)

Section KeepsFriends.
Context {A B : Type}.

Lemma kf_ret (x : A) : keeps_friends (ret x).
Proof. intros h y h' [= _ <-]. done. Qed.

Lemma kf_bind (m : M A) (k : A -> M B) :
  keeps_friends m -> (forall x, keeps_friends (k x)) -> keeps_friends (bind m k).
Proof.
  intros Hm Hk h y h' Hrun r. unfold bind in Hrun.
  destruct (m h) as [[x h1]|] eqn:Hmh; [|done].
  rewrite (Hk x _ _ _ Hrun r). by apply (Hm _ _ _ Hmh).
Qed.
End KeepsFriends.

Lemma kf_user_get r : keeps_friends (user_get r).
Proof. intros h u h' Hrun. unfold user_get in Hrun. case_match; by simplify_eq. Qed.

Lemma kf_card_get r : keeps_friends (card_get r).
Proof. intros h u h' Hrun. unfold card_get in Hrun. case_match; by simplify_eq. Qed.

Lemma kf_card_update r f : keeps_friends (card_update r f).
Proof. intros h u h' Hrun. unfold card_update in Hrun. case_match; by simplify_eq. Qed.

Lemma kf_card_alloc c : keeps_friends (card_alloc c).
Proof. intros h u h' [= _ <-]. done. Qed.

Lemma kf_user_update r f :
  (forall u, User.friends (f u) = User.friends u) -> keeps_friends (user_update r f).
Proof.
  intros Hf h [] h' Hrun x. unfold user_update in Hrun.
  destruct (user_objs h !! r) as [u|] eqn:Hu; [|done]. simplify_eq.
  unfold friends_of. simpl.
  destruct (decide (r = x)) as [->|Hne].
  - rewrite list_lookup_insert_eq by (by eapply lookup_lt_Some).
    by rewrite Hu, Hf.
  - by rewrite list_lookup_insert_ne.
Qed.

Lemma kf_user_alloc u : User.friends u = [] -> keeps_friends (user_alloc u).
Proof.
  intros Hu h r h' [= _ <-] x. unfold friends_of. simpl.
  destruct (decide (x < length (user_objs h))%nat) as [Hlt|Hge].
  - by rewrite lookup_app_l.
  - rewrite (lookup_ge_None_2 (user_objs h)) by lia.
    destruct (decide (x = length (user_objs h))) as [->|Hne].
    + by rewrite list_lookup_middle.
    + rewrite lookup_ge_None_2; [done|]. rewrite length_app. simpl. lia.
Qed.

Create HintDb keeps_friends.
#[local] Hint Resolve kf_user_get kf_card_get kf_card_update kf_card_alloc
  : keeps_friends.

(** Closes [keeps_friends] goals for code made of the store primitives. *)
Ltac keeps_friends_tac :=
  repeat first
    [ apply kf_ret
    | apply kf_bind; [|intros ?]
    | apply kf_user_update; intros []; reflexivity
    | solve [auto with keeps_friends]
    | case_decide
    | case_match ].

Lemma kf_pay a b m d : keeps_friends (pay a b m d).
Proof. unfold pay. keeps_friends_tac. Qed.

Lemma kf_charge c a : keeps_friends (charge c a).
Proof. unfold charge. keeps_friends_tac. Qed.

Lemma kf_assign_credit_card r c : keeps_friends (assign_credit_card r c).
Proof. unfold assign_credit_card. keeps_friends_tac. Qed.

Lemma kf_retrieve_activity r : keeps_friends (retrieve_activity r).
Proof. unfold retrieve_activity. keeps_friends_tac. Qed.

Lemma kf_feed_loop users feed : keeps_friends (feed_loop users feed).
Proof.
  revert feed. induction users as [|r rs IH]; intros feed; simpl.
  - apply kf_ret.
  - apply kf_bind; [apply kf_retrieve_activity | intros ?; apply IH].
Qed.

Lemma friends_of_lookup h r u : user_objs h !! r = Some u -> friends_of h r = User.friends u.
Proof. intros H. unfold friends_of. by rewrite H. Qed.

(** Every way [add_friend] can return. *)
Lemma add_friend_inv h a b r h' :
  add_friend a b h = Some (r, h') ->
  (r = false /\ h' = h) \/
  (r = true /\ b <> a /\ (b ∉ friends_of h a) /\
   (exists ua ub, user_objs h !! a = Some ua /\ user_objs h !! b = Some ub) /\
   forall x, friends_of h' x = friends_of h x ++ new_friend a b x).
Proof.
  intros Hrun.
  destruct (decide (b = a)) as [->|Hba].
  { unfold add_friend in Hrun. rewrite decide_True in Hrun by done.
    left. by injection Hrun as <- <-. }
  destruct (user_objs h !! a) as [ua|] eqn:Ha.
  2:{ unfold add_friend, bind, user_get in Hrun.
      rewrite decide_False, Ha in Hrun by done. done. }
  destruct (decide (b ∈ User.friends ua)) as [Hin|Hnew].
  { rewrite (add_friend_refused h a b ua) in Hrun by auto.
    left. by injection Hrun as <- <-. }
  destruct (user_objs h !! b) as [ub|] eqn:Hb.
  2:{ unfold add_friend in Hrun. rewrite decide_False in Hrun by done.
      rewrite (bind_user_get _ _ _ _ Ha) in Hrun. unfold friend_in in Hrun.
      rewrite bool_decide_eq_false_2 in Hrun by done.
      rewrite (bind_user_update _ _ _ _ _ Ha) in Hrun.
      unfold bind at 1, user_update at 1 in Hrun. simpl in Hrun.
      rewrite list_lookup_insert_ne, Hb in Hrun by done. done. }
  rewrite (add_friend_success h a b ua ub) in Hrun by done.
  injection Hrun as <- <-. right.
  pose proof (lookup_lt_Some _ _ _ Ha) as La.
  pose proof (lookup_lt_Some _ _ _ Hb) as Lb.
  split_and!; [done | done | by rewrite (friends_of_lookup _ _ _ Ha) | by eauto |].
  intros x. unfold new_friend, friends_of at 1. simpl.
  destruct (decide (x = a)) as [->|Hxa].
  - rewrite list_lookup_insert_ne, list_lookup_insert_eq by (done || lia).
    by rewrite (friends_of_lookup _ _ _ Ha).
  - destruct (decide (x = b)) as [->|Hxb].
    + rewrite list_lookup_insert_eq by (rewrite length_insert; lia).
      by rewrite (friends_of_lookup _ _ _ Hb).
    + rewrite !list_lookup_insert_ne by done.
      by rewrite app_nil_r.
Qed.

(** What one call does to the friend lists: nothing, unless it is an
    [add_friend] that returns true. *)
Lemma run_op_friends op w r w' :
  run_op op w = Some (r, w') ->
  (forall x, friends_of (heap w') x = friends_of (heap w) x) \/
  (exists a b,
      op = OpAddFriend a b /\ r = RBool true /\ b <> a /\
      (b ∉ friends_of (heap w) a) /\
      forall x, friends_of (heap w') x = friends_of (heap w) x ++ new_friend a b x).
Proof.
  assert (forall A (res : A -> Result) (m : M A),
             keeps_friends m ->
             call res m w = Some (r, w') ->
             forall x, friends_of (heap w') x = friends_of (heap w) x) as Hcall.
  { intros A res m Hm Hrun. unfold call in Hrun.
    destruct (m (heap w)) as [[y h1]|] eqn:Hmh; [|done].
    injection Hrun as _ <-. simpl. by apply (Hm _ _ _ Hmh). }
  destruct op as [name bal|bal|c amount|u [c|]|a b|a b m d|a|]; simpl; intros Hrun.
  - left. injection Hrun as _ <-. simpl.
    by apply (kf_user_alloc (User.init name bal) eq_refl (heap w) _ _ eq_refl).
  - left. eapply Hcall; [|done]. apply kf_card_alloc.
  - left. eapply Hcall; [|done]. apply kf_charge.
  - left. eapply Hcall; [|done].
    apply kf_bind; [apply kf_card_get | intros ?; apply kf_assign_credit_card].
  - left. eapply Hcall; [|done]. apply kf_assign_credit_card.
  - unfold call in Hrun.
    destruct (add_friend a b (heap w)) as [[ok h1]|] eqn:Hadd; [|done].
    injection Hrun as <- <-. simpl.
    destruct (add_friend_inv _ _ _ _ _ Hadd) as [[-> ->]|(-> & ? & ? & _ & ?)];
      [by left | right; by exists a, b].
  - left. eapply Hcall; [|done]. apply kf_pay.
  - left. eapply Hcall; [|done]. apply kf_retrieve_activity.
  - left. eapply Hcall; [|done]. apply kf_feed_loop.
Qed.

Lemma new_friend_elem a b x y :
  y ∈ new_friend a b x <-> (x = a /\ y = b) \/ (x <> a /\ x = b /\ y = a).
Proof.
  unfold new_friend. repeat case_decide;
    rewrite ?list_elem_of_singleton, ?elem_of_nil; naive_solver.
Qed.

Lemma friends_invariant_step op w r w' :
  friends_invariant (heap w) ->
  run_op op w = Some (r, w') ->
  friends_invariant (heap w').
Proof.
  intros (Hsym & Hirr & Hdup) Hrun.
  destruct (run_op_friends _ _ _ _ Hrun)
    as [Hsame|(a & b & _ & _ & Hba & Hnew & Hext)].
  { split_and!; intros x; [intros y|..]; rewrite !Hsame; auto. }
  split_and!.
  - intros x y. rewrite !Hext, !elem_of_app, !new_friend_elem, (Hsym x y).
    destruct (decide (x = a)), (decide (y = a)); naive_solver.
  - intros x. rewrite Hext, elem_of_app, new_friend_elem.
    intros [Hx|Hx]; [by apply (Hirr x) | naive_solver].
  - intros x. rewrite Hext. apply NoDup_app. split_and!.
    + apply Hdup.
    + intros y Hy [[-> ->]|(_ & -> & ->)]%new_friend_elem; [done|].
      by apply Hsym in Hy.
    + unfold new_friend. repeat case_decide; try apply NoDup_singleton; constructor.
Qed.

Lemma friends_of_empty r : friends_of empty_heap r = [].
Proof. by destruct r. Qed.

(** C7: in every state a client can reach from a fresh application, the
    friends relation is symmetric and irreflexive, and no friend list
    holds a user twice. *)
Theorem friends_relation_invariant w :
  reachable w ->
  friends_symmetric (heap w) /\
  friends_irreflexive (heap w) /\
  friends_duplicate_free (heap w).
Proof.
  induction 1 as [|w op r w' _ IH Hrun].
  - split_and!; intros a; [intros b|..]; simpl; rewrite ?friends_of_empty.
    + by rewrite !elem_of_nil.
    + apply not_elem_of_nil.
    + constructor.
  - by eapply friends_invariant_step.
Qed.

Lemma run_reachable ops : forall w rs w',
  reachable w -> run ops w = Some (rs, w') -> reachable w'.
Proof.
  induction ops as [|op ops IH]; intros w rs w' Hw Hrun; simpl in Hrun.
  - by simplify_eq.
  - destruct (run_op op w) as [[r w1]|] eqn:Hop; [|done].
    destruct (run ops w1) as [[rs' w2]|] eqn:Hrest; [|done].
    simplify_eq. eapply IH; [|done]. by eapply reachable_step.
Qed.

Lemma friends_relation_invariant_witness :
  friends_symmetric befriended_heap /\
  friends_irreflexive befriended_heap /\
  friends_duplicate_free befriended_heap.
Proof.
  apply (friends_relation_invariant befriended_world).
  eapply (run_reachable befriended_ops fresh_world); [apply reachable_fresh|].
  vm_compute. reflexivity.
Defined.

(** ** At most one successful friend-add per pair *)

Lemma run_add_friend_true x y w w' :
  run_op (OpAddFriend x y) w = Some (RBool true, w') ->
  y <> x /\ (y ∉ friends_of (heap w) x) /\
  forall z, friends_of (heap w') z = friends_of (heap w) z ++ new_friend x y z.
Proof.
  simpl. unfold call. intros Hrun.
  destruct (add_friend x y (heap w)) as [[ok h1]|] eqn:Hadd; [|done].
  injection Hrun as -> <-. simpl.
  destruct (add_friend_inv _ _ _ _ _ Hadd) as [[? _]|(_ & ? & ? & _ & ?)]; done.
Qed.

(** Friend lists only grow. *)
Lemma friends_of_mono op w r w' a b :
  run_op op w = Some (r, w') ->
  b ∈ friends_of (heap w) a -> b ∈ friends_of (heap w') a.
Proof.
  intros Hrun Hb.
  destruct (run_op_friends _ _ _ _ Hrun) as [Hsame|(x & y & _ & _ & _ & _ & Hext)].
  - by rewrite Hsame.
  - rewrite Hext, elem_of_app. by left.
Qed.

Lemma is_friend_add_true a b op r :
  is_friend_add a b (op, r) = true ->
  exists x y, op = OpAddFriend x y /\ r = RBool true /\
              ((x = a /\ y = b) \/ (x = b /\ y = a)).
Proof.
  destruct op as [| | | |x y| | |]; try done.
  destruct r as [|[]| | |]; try done. simpl.
  intros H%bool_decide_eq_true. by exists x, y.
Qed.

Lemma friend_adds_cons a b op ops r rs :
  friend_adds a b (op :: ops) (r :: rs)
  = ((if is_friend_add a b (op, r) then 1 else 0) + friend_adds a b ops rs)%nat.
Proof.
  unfold friend_adds.
  change (zip (op :: ops) (r :: rs)) with ((op, r) :: zip ops rs).
  destruct (is_friend_add a b (op, r)) eqn:Hadd.
  - by rewrite filter_cons_True.
  - rewrite filter_cons_False; [done|]. by rewrite Hadd.
Qed.

(** Once two users are in each other's lists, no friend-add between them
    succeeds any more. *)
Lemma friend_adds_none a b ops : forall w rs w',
  b ∈ friends_of (heap w) a ->
  a ∈ friends_of (heap w) b ->
  run ops w = Some (rs, w') ->
  friend_adds a b ops rs = 0%nat.
Proof.
  induction ops as [|op ops IH]; intros w rs w' Hab Hba Hrun; simpl in Hrun.
  - by simplify_eq.
  - destruct (run_op op w) as [[r w1]|] eqn:Hop; [|done].
    destruct (run ops w1) as [[rs' w2]|] eqn:Hrest; [|done].
    simplify_eq. rewrite friend_adds_cons.
    rewrite (IH w1 rs' w') by eauto using friends_of_mono.
    destruct (is_friend_add a b (op, r)) eqn:Hadd; [|done].
    apply is_friend_add_true in Hadd as (x & y & -> & -> & Hxy).
    apply run_add_friend_true in Hop as (_ & Hnew & _).
    destruct Hxy as [[-> ->]|[-> ->]]; done.
Qed.

Lemma friend_adds_at_most_one a b ops : forall w rs w',
  run ops w = Some (rs, w') -> (friend_adds a b ops rs <= 1)%nat.
Proof.
  induction ops as [|op ops IH]; intros w rs w' Hrun; simpl in Hrun.
  - simplify_eq. unfold friend_adds. simpl. lia.
  - destruct (run_op op w) as [[r w1]|] eqn:Hop; [|done].
    destruct (run ops w1) as [[rs' w2]|] eqn:Hrest; [|done].
    simplify_eq. rewrite friend_adds_cons.
    destruct (is_friend_add a b (op, r)) eqn:Hadd; [|by eapply IH].
    apply is_friend_add_true in Hadd as (x & y & -> & -> & Hxy).
    apply run_add_friend_true in Hop as (Hyx & _ & Hext).
    rewrite (friend_adds_none a b ops w1 rs' w'); [lia | | | done];
      rewrite Hext, elem_of_app, new_friend_elem; naive_solver.
Qed.

(** C10: a friend-add succeeds at most once per pair of users.  If
    [a.add_friend(b)] returns true, each of the two logs has gained one
    entry and an immediately following [b.add_friend(a)] returns false and
    leaves the store as it is; a friend-add that returns false changes
    nothing; and in any run of calls, at most one call of
    [a.add_friend(b)] or [b.add_friend(a)] returns true. *)
Theorem friend_add_at_most_once (a b : nat) :
  (forall h h1,
      add_friend a b h = Some (true, h1) ->
      a <> b /\
      add_friend b a h1 = Some (false, h1) /\
      length (log_of h1 a) = S (length (log_of h a)) /\
      length (log_of h1 b) = S (length (log_of h b))) /\
  (forall h h1, add_friend a b h = Some (false, h1) -> h1 = h) /\
  (forall ops w rs w',
      run ops w = Some (rs, w') -> (friend_adds a b ops rs <= 1)%nat).
Proof.
  split_and!.
  - intros h h1 Hadd.
    destruct (add_friend_inv _ _ _ _ _ Hadd)
      as [[? _]|(_ & Hba & Hnew & (ua & ub & Ha & Hb) & Hext)]; [done|].
    rewrite (friends_of_lookup _ _ _ Ha) in Hnew.
    rewrite (add_friend_success h a b ua ub) in Hadd by done.
    pose proof (lookup_lt_Some _ _ _ Ha) as La.
    pose proof (lookup_lt_Some _ _ _ Hb) as Lb.
    injection Hadd as <-. split_and!.
    + done.
    + eapply add_friend_refused; [resolve_lookup|].
      right. simpl. apply elem_of_app. right. by apply list_elem_of_singleton.
    + rewrite (log_of_lookup _ _ _ Ha). unfold log_of. simpl.
      rewrite list_lookup_insert_ne, list_lookup_insert_eq by (done || lia).
      simpl. rewrite length_app. simpl. lia.
    + rewrite (log_of_lookup _ _ _ Hb). unfold log_of. simpl.
      rewrite list_lookup_insert_eq by (rewrite length_insert; lia).
      simpl. rewrite length_app. simpl. lia.
  - intros h h1 Hadd.
    by destruct (add_friend_inv _ _ _ _ _ Hadd) as [[_ ?]|[? _]].
  - intros ops w rs w'. apply friend_adds_at_most_one.
Qed.

Lemma friend_add_at_most_once_witness :
  add_friend 1 0 befriended_heap = Some (false, befriended_heap) /\
  (friend_adds 0 1
     [OpAddFriend 0 1; OpAddFriend 1 0; OpAddFriend 0 1]
     [RBool true; RBool false; RBool false] <= 1)%nat.
Proof.
  destruct (friend_add_at_most_once 0 1) as (Honce & _ & Hrun).
  split.
  - apply (Honce setUp_heap befriended_heap). vm_compute. reflexivity.
  - apply (Hrun _ setUp_world _ befriended_world). vm_compute. reflexivity.
Defined.

(** ** Well-formedness along a run *)

Lemma store_le_refl h : store_le h h.
Proof. split_and!; [done | done | intros r u' Hu; right; by exists u']. Qed.

Lemma store_le_trans h1 h2 h3 : store_le h1 h2 -> store_le h2 h3 -> store_le h1 h3.
Proof.
  intros (Hu12 & Hc12 & Hk12) (Hu23 & Hc23 & Hk23). split_and!; [by auto | by auto |].
  intros r u3 Hu3.
  destruct (Hk23 r u3 Hu3) as [?|(u2 & Hu2 & Heq)]; [by left|].
  destruct (Hk12 r u2 Hu2) as [Hnone|(u1 & Hu1 & Heq')].
  - left. by rewrite <- Heq.
  - right. exists u1. split; [done|]. by rewrite Heq'.
Qed.

Lemma grows_ret {A} (x : A) : grows (ret x).
Proof. intros h y h' [= _ <-]. apply store_le_refl. Qed.

Lemma grows_bind {A B} (m : M A) (k : A -> M B) :
  grows m -> (forall x, grows (k x)) -> grows (bind m k).
Proof.
  intros Hm Hk h y h' Hrun. unfold bind in Hrun.
  destruct (m h) as [[x h1]|] eqn:Hmh; [|done].
  eapply store_le_trans; [by eapply Hm | by eapply Hk].
Qed.

Lemma grows_user_get r : grows (user_get r).
Proof.
  intros h u h' Hrun. unfold user_get in Hrun.
  case_match; simplify_eq. apply store_le_refl.
Qed.

Lemma grows_card_get r : grows (card_get r).
Proof.
  intros h u h' Hrun. unfold card_get in Hrun.
  case_match; simplify_eq. apply store_le_refl.
Qed.

Lemma grows_card_update r f : grows (card_update r f).
Proof.
  intros h [] h' Hrun. unfold card_update in Hrun.
  case_match; simplify_eq. split_and!; simpl.
  - done.
  - intros c. by rewrite list_lookup_insert_is_Some.
  - intros x u' Hu. right. by exists u'.
Qed.

Lemma grows_card_alloc c : grows (card_alloc c).
Proof.
  intros h r h' [= _ <-]. split_and!; simpl.
  - done.
  - intros x [k Hk]. exists k. by apply lookup_app_l_Some.
  - intros x u' Hu. right. by exists u'.
Qed.

Lemma grows_user_update r f :
  (forall u, User.credit_card (f u) = User.credit_card u) -> grows (user_update r f).
Proof.
  intros Hf h [] h' Hrun. unfold user_update in Hrun.
  destruct (user_objs h !! r) as [u|] eqn:Hu; [|done]. simplify_eq.
  split_and!; simpl.
  - intros x. by rewrite list_lookup_insert_is_Some.
  - done.
  - intros x u' Hu'. right.
    apply list_lookup_insert_Some in Hu' as [(-> & <- & _)|[_ Hu']].
    + exists u. by rewrite Hf.
    + by exists u'.
Qed.

Lemma grows_user_alloc u : User.credit_card u = None -> grows (user_alloc u).
Proof.
  intros Hnone h r h' [= _ <-]. split_and!; simpl.
  - intros x [v Hv]. exists v. by apply lookup_app_l_Some.
  - done.
  - intros x u' Hu'.
    apply lookup_app_Some in Hu' as [Hu'|[_ Hu']]; [right; by exists u'|].
    left. destruct (x - length (user_objs h))%nat; [|done].
    simpl in Hu'. by simplify_eq.
Qed.

Create HintDb grows.
#[local] Hint Resolve grows_user_get grows_card_get grows_card_update grows_card_alloc
  : grows.

Ltac grows_tac :=
  repeat first
    [ apply grows_ret
    | apply grows_bind; [|intros ?]
    | apply grows_user_update; intros []; reflexivity
    | solve [auto with grows]
    | case_decide
    | case_match ].

Lemma grows_pay a b m d : grows (pay a b m d).
Proof. unfold pay. grows_tac. Qed.

Lemma grows_add_friend a b : grows (add_friend a b).
Proof. unfold add_friend. grows_tac. Qed.

Lemma grows_charge c a : grows (charge c a).
Proof. unfold charge. grows_tac. Qed.

Lemma grows_retrieve_activity r : grows (retrieve_activity r).
Proof. unfold retrieve_activity. grows_tac. Qed.

Lemma grows_feed_loop users feed : grows (feed_loop users feed).
Proof.
  revert feed. induction users as [|r rs IH]; intros feed; simpl.
  - apply grows_ret.
  - apply grows_bind; [apply grows_retrieve_activity | intros ?; apply IH].
Qed.

Lemma well_formed_store_le app h h' :
  store_le h h' -> well_formed (mkWorld app h) -> well_formed (mkWorld app h').
Proof.
  intros (Hu & Hc & Hk) [Hreg Hcards]. split; simpl in *.
  - eapply Forall_impl; [exact Hreg|]. intros r. apply Hu.
  - intros r u' c Hu' Hcc.
    destruct (Hk r u' Hu') as [Hnone|(u & Hlook & Heq)]; [congruence|].
    apply Hc. eapply Hcards; [done|]. by rewrite Heq.
Qed.

Lemma well_formed_assign w user c h' x :
  (forall k, c = Some k -> is_Some (card_objs (heap w) !! k)) ->
  assign_credit_card user c (heap w) = Some (x, h') ->
  well_formed w -> well_formed (mkWorld (app w) h').
Proof.
  intros Hc Hrun [Hreg Hcards]. unfold assign_credit_card, user_update in Hrun.
  destruct (user_objs (heap w) !! user) as [u|] eqn:Hu; [|done]. simplify_eq.
  split; simpl.
  - eapply Forall_impl; [exact Hreg|]. intros r. simpl.
    by rewrite list_lookup_insert_is_Some.
  - intros r u' k Hu' Hcc. simpl in *.
    apply list_lookup_insert_Some in Hu' as [(-> & <- & _)|[_ Hu']].
    + simpl in Hcc. by apply Hc.
    + by eapply Hcards.
Qed.

Lemma well_formed_step op w r w' :
  well_formed w -> run_op op w = Some (r, w') -> well_formed w'.
Proof.
  assert (forall A (res : A -> Result) (m : M A),
             grows m -> well_formed w -> call res m w = Some (r, w') ->
             well_formed w') as Hcall.
  { intros A res m Hm Hwf Hrun. unfold call in Hrun.
    destruct (m (heap w)) as [[y h1]|] eqn:Hmh; [|done].
    injection Hrun as _ <-.
    eapply well_formed_store_le; [by eapply Hm | by destruct w]. }
  intros Hwf.
  destruct op as [name bal|bal|c amount|u [c|]|a b|a b m d|a|]; simpl; intros Hrun.
  - injection Hrun as _ <-.
    pose proof (grows_user_alloc (User.init name bal) eq_refl (heap w) _ _ eq_refl)
      as Hle.
    destruct (well_formed_store_le (app w) _ _ Hle) as [Hreg Hcards];
      [by destruct w|].
    split; [|done]. apply Forall_app. split; [done|].
    repeat constructor. simpl. rewrite list_lookup_middle by done. by eexists.
  - eapply Hcall; [|done..]. apply grows_card_alloc.
  - eapply Hcall; [|done..]. apply grows_charge.
  - unfold call in Hrun.
    destruct ((card_get c;;; assign_credit_card u (Some c)) (heap w))
      as [[y h1]|] eqn:Hm; [|done].
    injection Hrun as _ <-. unfold bind, card_get in Hm.
    destruct (card_objs (heap w) !! c) as [k|] eqn:Hk; [|done].
    eapply well_formed_assign; [|done..]. intros ? [= <-]. by eexists.
  - unfold call in Hrun.
    destruct (assign_credit_card u None (heap w)) as [[y h1]|] eqn:Hm; [|done].
    injection Hrun as _ <-. eapply well_formed_assign; [|done..]. by intros.
  - eapply Hcall; [|done..]. apply grows_add_friend.
  - eapply Hcall; [|done..]. apply grows_pay.
  - eapply Hcall; [|done..]. apply grows_retrieve_activity.
  - eapply Hcall; [|done..]. apply grows_feed_loop.
Qed.

(** Every state a client can reach is well formed, so the side conditions
    of the theorems above (registered users exist, an assigned card
    exists) hold there. *)
Lemma reachable_well_formed w : reachable w -> well_formed w.
Proof.
  induction 1 as [|w op r w' _ IH Hrun].
  - split; [constructor | by intros [] ? ?].
  - by eapply well_formed_step.
Qed.

(** In particular the feed of every reachable state is the deduplicated
    concatenation of the logs. *)
Lemma render_feed_reachable w :
  reachable w ->
  render_feed (app w) (heap w)
  = Some (first_occurrences (all_entries (heap w) (app w)), heap w).
Proof. intros Hw. apply render_feed_spec. by apply reachable_well_formed. Qed.

(** * Further properties *)

(** ** Every call is one of the transitions *)

Lemma pay_effect w a b m d r h' :
  pay a b m d (heap w) = Some (r, h') ->
  effect w (OpPay a b m d) (RBool r) (mkWorld (app w) h').
Proof.
  destruct w as [ap h]. simpl. intros Hrun.
  destruct (decide (b = a)) as [->|Hba].
  { unfold pay in Hrun. rewrite decide_True in Hrun by done.
    injection Hrun as <- <-. apply effect_pay_self. }
  destruct (decide (m <= 0)) as [Hm|Hm].
  { unfold pay in Hrun. rewrite decide_False, decide_True in Hrun by done.
    injection Hrun as <- <-. by apply effect_pay_not_positive. }
  destruct (user_objs h !! a) as [ua|] eqn:Ha.
  2:{ unfold pay, bind, user_get in Hrun.
      rewrite !decide_False, Ha in Hrun by done. done. }
  destruct (decide (User.balance ua >= m)) as [Hbal|Hbal].
  - destruct (user_objs h !! b) as [ub|] eqn:Hb.
    + rewrite (pay_cash_store h a b ua ub m d) in Hrun by (done || lia).
      injection Hrun as <- <-. apply effect_pay_cash; (done || lia).
    + unfold pay in Hrun. rewrite !decide_False in Hrun by done.
      rewrite (bind_user_get _ _ _ _ Ha), decide_True in Hrun by done.
      rewrite (bind_user_update _ _ _ _ _ Ha) in Hrun.
      unfold bind at 1, user_update at 1 in Hrun. simpl in Hrun.
      rewrite list_lookup_insert_ne, Hb in Hrun by done. done.
  - destruct (User.credit_card ua) as [c|] eqn:Hcc.
    2:{ unfold pay in Hrun. rewrite !decide_False in Hrun by done.
        rewrite (bind_user_get _ _ _ _ Ha), decide_False, Hcc in Hrun by done.
        injection Hrun as <- <-. eapply effect_pay_no_card; (done || simpl; lia). }
    destruct (card_objs h !! c) as [card|] eqn:Hc.
    2:{ unfold pay in Hrun. rewrite !decide_False in Hrun by done.
        rewrite (bind_user_get _ _ _ _ Ha), decide_False, Hcc in Hrun by done.
        unfold bind, card_get in Hrun. by rewrite Hc in Hrun. }
    destruct (decide (CreditCard.balance card >= m)) as [Hcov|Hcov].
    + destruct (user_objs h !! b) as [ub|] eqn:Hb.
      * rewrite (pay_credit_store h a b ua ub c card m d) in Hrun by (done || lia).
        injection Hrun as <- <-. eapply effect_pay_credit; (done || simpl; lia).
      * unfold pay in Hrun. rewrite !decide_False in Hrun by done.
        rewrite (bind_user_get _ _ _ _ Ha), decide_False, Hcc in Hrun by done.
        rewrite (bind_card_get _ _ _ _ Hc), decide_True in Hrun by done.
        rewrite (bind_card_update _ _ _ _ _ Hc) in Hrun.
        unfold bind at 1, user_update at 1 in Hrun. simpl in Hrun.
        by rewrite Hb in Hrun.
    + unfold pay in Hrun. rewrite !decide_False in Hrun by done.
      rewrite (bind_user_get _ _ _ _ Ha), decide_False, Hcc in Hrun by done.
      rewrite (bind_card_get _ _ _ _ Hc), decide_False in Hrun by done.
      injection Hrun as <- <-. eapply effect_pay_card_short; (done || simpl; lia).
Qed.

Lemma add_friend_effect w a b r h' :
  add_friend a b (heap w) = Some (r, h') ->
  effect w (OpAddFriend a b) (RBool r) (mkWorld (app w) h').
Proof.
  destruct w as [ap h]. simpl. intros Hrun.
  destruct (decide (b = a)) as [->|Hba].
  { unfold add_friend in Hrun. rewrite decide_True in Hrun by done.
    injection Hrun as <- <-. apply effect_add_friend_self. }
  destruct (add_friend_inv _ _ _ _ _ Hrun)
    as [[-> ->]|(-> & _ & Hnew & (ua & ub & Ha & Hb) & _)].
  - destruct (user_objs h !! a) as [ua|] eqn:Ha.
    2:{ unfold add_friend, bind, user_get in Hrun.
        rewrite decide_False, Ha in Hrun by done. done. }
    destruct (decide (b ∈ User.friends ua)) as [Hin|Hnew].
    + by eapply effect_add_friend_again.
    + unfold add_friend in Hrun. rewrite decide_False in Hrun by done.
      rewrite (bind_user_get _ _ _ _ Ha) in Hrun. unfold friend_in in Hrun.
      rewrite bool_decide_eq_false_2 in Hrun by done.
      unfold bind, user_update, user_get in Hrun.
      repeat (case_match; simplify_eq).
  - rewrite (friends_of_lookup _ _ _ Ha) in Hnew.
    rewrite (add_friend_success h a b ua ub) in Hrun by done.
    injection Hrun as <-. by apply effect_add_friend.
Qed.

Lemma feed_loop_allocated users feed h r h' :
  feed_loop users feed h = Some (r, h') ->
  Forall (fun x => is_Some (user_objs h !! x)) users.
Proof.
  revert feed. induction users as [|u us IH]; intros feed Hrun; [constructor|].
  simpl in Hrun. unfold bind at 1, retrieve_activity, bind, user_get, ret in Hrun.
  destruct (user_objs h !! u) as [v|] eqn:Hu; [|done].
  constructor; [by eexists | by eapply IH].
Qed.

(** What the code does on a call is one of the transitions. *)
Lemma run_op_effect op w r w' : run_op op w = Some (r, w') -> effect w op r w'.
Proof.
  destruct op as [name bal|bal|c amount|u [c|]|a b|a b m d|a|]; simpl; unfold call.
  - intros [= <- <-]. apply effect_create_user.
  - intros [= <- <-]. apply effect_credit_card.
  - unfold charge, bind, card_get. intros Hrun.
    destruct (card_objs (heap w) !! c) as [card|] eqn:Hc; [|done].
    unfold CreditCard.charge in Hrun.
    destruct (decide (CreditCard.balance card >= amount));
      unfold card_update, ret in Hrun; rewrite Hc in Hrun; injection Hrun as <- <-.
    + by apply effect_charge.
    + rewrite list_insert_id by done. destruct w as [ap [us cs]].
      eapply effect_charge_refused; [done | lia].
  - unfold bind, card_get, assign_credit_card, user_update. intros Hrun.
    destruct (card_objs (heap w) !! c) as [card|] eqn:Hc; [|done].
    destruct (user_objs (heap w) !! u) as [ua|] eqn:Hu; [|done].
    injection Hrun as <- <-. apply effect_assign_credit_card; [done|].
    intros k [= <-]. by eexists.
  - unfold assign_credit_card, user_update. intros Hrun.
    destruct (user_objs (heap w) !! u) as [ua|] eqn:Hu; [|done].
    injection Hrun as <- <-. by apply effect_assign_credit_card.
  - intros Hrun. destruct (add_friend a b (heap w)) as [[ok h1]|] eqn:Hadd; [|done].
    injection Hrun as <- <-. by apply add_friend_effect.
  - intros Hrun. destruct (pay a b m d (heap w)) as [[ok h1]|] eqn:Hpay; [|done].
    injection Hrun as <- <-. by apply pay_effect.
  - unfold retrieve_activity, bind, user_get, ret. intros Hrun.
    destruct (user_objs (heap w) !! a) as [ua|] eqn:Ha; [|done].
    injection Hrun as <- <-. destruct w. by apply effect_retrieve_activity.
  - intros Hrun.
    destruct (render_feed (app w) (heap w)) as [[feed h1]|] eqn:Hfeed; [|done].
    injection Hrun as <- <-.
    pose proof (feed_loop_allocated _ _ _ _ _ Hfeed) as Hall.
    rewrite (render_feed_spec _ _ Hall) in Hfeed. injection Hfeed as <- <-.
    destruct w. by apply effect_render_feed.
Qed.

(** ** Money is neither made nor lost by a payment *)









(** ** No call overdraws *)

Lemma effect_no_debt w op r w' :
  effect w op r w' -> opens_no_debt op -> no_debt (heap w) -> no_debt (heap w').
Proof.
  destruct 1; simpl; intros Hopen [Husers Hcards]; try done; split; simpl; try done.
  - apply Forall_app. split; [done|]. by repeat constructor.
  - apply Forall_app. split; [done|]. by repeat constructor.
  - apply Forall_insert; [done|]. simpl. lia.
  - apply Forall_insert; [done|]. simpl. by eapply (Forall_lookup_1 _ _ _ _ Husers).
  - pose proof (Forall_lookup_1 _ _ _ _ Husers H0) as Ha.
    pose proof (Forall_lookup_1 _ _ _ _ Husers H1) as Hb. simpl in *.
    repeat apply Forall_insert; done.
  - pose proof (Forall_lookup_1 _ _ _ _ Husers H0) as Ha.
    pose proof (Forall_lookup_1 _ _ _ _ Husers H1) as Hb. simpl in *.
    repeat apply Forall_insert; simpl; (done || lia).
  - pose proof (Forall_lookup_1 _ _ _ _ Husers H0) as Ha.
    pose proof (Forall_lookup_1 _ _ _ _ Husers H1) as Hb. simpl in *.
    repeat apply Forall_insert; simpl; (done || lia).
  - apply Forall_insert; [done|]. simpl. lia.
Qed.

(** X3: no call overdraws.  If no balance is negative and a run opens no
    user and no card with a negative balance, then no balance, of a user
    or of a card, is negative after the run. *)
Theorem run_no_debt ops : forall w rs w',
  no_debt (heap w) ->
  Forall opens_no_debt ops ->
  run ops w = Some (rs, w') ->
  no_debt (heap w').
Proof.
  induction ops as [|op ops IH]; intros w rs w' Hw Hops Hrun; simpl in Hrun.
  - by simplify_eq.
  - destruct (run_op op w) as [[r w1]|] eqn:Hop; [|done].
    destruct (run ops w1) as [[rs' w2]|] eqn:Hrest; [|done].
    simplify_eq. apply Forall_cons in Hops as [Hop1 Hops].
    eapply IH; [|done..].
    eapply effect_no_debt; [by apply run_op_effect | done..].
Qed.

Lemma run_no_debt_witness : no_debt befriended_heap.
Proof.
  apply (run_no_debt befriended_ops fresh_world
           [RUser 0; RUser 1; RCard 0; RNone; RBool true] befriended_world).
  - split; constructor.
  - repeat constructor; simpl; lia.
  - vm_compute. reflexivity.
Defined.

(** ** Users persist: names are fixed, logs and friend lists only grow *)

Lemma user_le_refl u : user_le u u.
Proof. by split_and!. Qed.

Lemma user_le_trans u1 u2 u3 : user_le u1 u2 -> user_le u2 u3 -> user_le u1 u3.
Proof.
  intros (Hn12 & Hl12 & Hf12) (Hn23 & Hl23 & Hf23).
  split_and!; [congruence | by etrans | by etrans].
Qed.

Lemma users_le_refl l : users_le l l.
Proof. intros r u Hu. exists u. split; [done | apply user_le_refl]. Qed.

Lemma users_le_trans l1 l2 l3 : users_le l1 l2 -> users_le l2 l3 -> users_le l1 l3.
Proof.
  intros H12 H23 r u1 Hu1.
  destruct (H12 r u1 Hu1) as (u2 & Hu2 & Hle12).
  destruct (H23 r u2 Hu2) as (u3 & Hu3 & Hle23).
  exists u3. split; [done | by eapply user_le_trans].
Qed.

Lemma users_le_insert l r u u' :
  l !! r = Some u -> user_le u u' -> users_le l (<[r := u']> l).
Proof.
  intros Hu Hle x v Hv. destruct (decide (x = r)) as [->|Hne].
  - exists u'. simplify_eq. split; [|done].
    apply list_lookup_insert_eq. by eapply lookup_lt_Some.
  - exists v. rewrite list_lookup_insert_ne by done. split; [done | apply user_le_refl].
Qed.

Lemma users_le_two_updates l a b ua ub ua' ub' :
  b <> a -> l !! a = Some ua -> l !! b = Some ub ->
  user_le ua ua' -> user_le ub ub' ->
  users_le l (<[b := ub']> (<[a := ua']> l)).
Proof.
  intros Hba Ha Hb Hlea Hleb.
  apply (users_le_trans _ (<[a := ua']> l)); [by eapply users_le_insert|].
  eapply users_le_insert; [|done]. by rewrite list_lookup_insert_ne.
Qed.

Lemma prefix_snoc {A} (l : list A) x : l `prefix_of` l ++ [x].
Proof. by exists [x]. Qed.

Lemma effect_users_le w op r w' :
  effect w op r w' ->
  users_le (user_objs (heap w)) (user_objs (heap w')) /\
  MiniVenmo.users (app w) `prefix_of` MiniVenmo.users (app w').
Proof.
  destruct 1; simpl; (split; [|done || apply prefix_snoc]);
    try apply users_le_refl.
  - intros x u Hu. exists u. split; [by apply lookup_app_l_Some | apply user_le_refl].
  - eapply users_le_insert; [done|]. by split_and!.
  - eapply users_le_two_updates; [done..| |]; split_and!; simpl;
      (done || apply prefix_snoc).
  - eapply users_le_two_updates; [done..| |]; split_and!; simpl;
      (done || apply prefix_snoc).
  - eapply users_le_two_updates; [done..| |]; split_and!; simpl;
      (done || apply prefix_snoc).
Qed.

Lemma run_users_le ops : forall w rs w',
  run ops w = Some (rs, w') ->
  users_le (user_objs (heap w)) (user_objs (heap w')) /\
  MiniVenmo.users (app w) `prefix_of` MiniVenmo.users (app w').
Proof.
  induction ops as [|op ops IH]; intros w rs w' Hrun; simpl in Hrun.
  - simplify_eq. split; [apply users_le_refl | done].
  - destruct (run_op op w) as [[r w1]|] eqn:Hop; [|done].
    destruct (run ops w1) as [[rs' w2]|] eqn:Hrest; [|done].
    simplify_eq.
    destruct (effect_users_le _ _ _ _ (run_op_effect _ _ _ _ Hop)) as [Hu1 Hr1].
    destruct (IH _ _ _ Hrest) as [Hu2 Hr2].
    split; [by eapply users_le_trans | by etrans].
Qed.

(** X4: users persist.  Along any run a user that exists keeps existing
    under the same reference and with the same name; its activity log and
    its friend list only gain entries at the end, so no entry is ever
    removed, rewritten or reordered; and the registry only gains users at
    the end. *)
Theorem run_users_persist ops w rs w' :
  run ops w = Some (rs, w') ->
  (forall r u,
      user_objs (heap w) !! r = Some u ->
      exists u',
        user_objs (heap w') !! r = Some u' /\
        User.name u' = User.name u /\
        User.activity_log u `prefix_of` User.activity_log u' /\
        User.friends u `prefix_of` User.friends u') /\
  MiniVenmo.users (app w) `prefix_of` MiniVenmo.users (app w').
Proof. intros Hrun. by apply (run_users_le ops w rs w'). Qed.

Lemma run_users_persist_witness :
  exists u',
    user_objs befriended_heap !! 1%nat = Some u' /\
    User.name u' = "Bob" /\
    [] `prefix_of` User.activity_log u' /\
    [] `prefix_of` User.friends u'.
Proof.
  destruct (run_users_persist [OpAddFriend 0 1] setUp_world
              [RBool true] befriended_world) as [Hpersist _].
  { vm_compute. reflexivity. }
  apply (Hpersist 1%nat bob). reflexivity.
Defined.

(** ** More on the feed *)

(** X5: what [render_feed] returns, in any state.  If the call returns,
    the store is as it was (so asking again gives the same feed), the
    feed holds no string twice, a string is in the feed exactly when it
    is in the log of a registered user, and the feed is no longer than
    the logs together. *)
Theorem render_feed_result app h feed h' :
  render_feed app h = Some (feed, h') ->
  h' = h /\
  render_feed app h' = Some (feed, h') /\
  NoDup feed /\
  (forall e, e ∈ feed <-> exists r, r ∈ MiniVenmo.users app /\ e ∈ log_of h r) /\
  (length feed <= length (all_entries h app))%nat.
Proof.
  intros Hrun.
  pose proof (feed_loop_allocated _ _ _ _ _ Hrun) as Hall.
  pose proof Hrun as Hrun'.
  rewrite (render_feed_spec _ _ Hall) in Hrun'. injection Hrun' as <- <-.
  split_and!; [done | done | apply first_occurrences_NoDup | |].
  - intros e. by rewrite first_occurrences_elem, all_entries_elem.
  - apply submseteq_length, NoDup_submseteq; [apply first_occurrences_NoDup|].
    intros e. by rewrite first_occurrences_elem.
Qed.

Lemma render_feed_result_witness :
  NoDup ["Alice and Bob are now friends"; "Bob and Alice are now friends"].
Proof.
  apply (render_feed_result (app befriended_world) befriended_heap _ befriended_heap).
  vm_compute. reflexivity.
Defined.

Lemma effect_registry w op r w' :
  effect w op r w' ->
  registry_allocated (app w) (heap w) -> registry_allocated (app w') (heap w').
Proof.
  intros Heff Hreg.
  destruct (effect_users_le _ _ _ _ Heff) as [Hle _].
  assert (Forall (fun x => is_Some (user_objs (heap w') !! x)) (MiniVenmo.users (app w)))
    as Hold.
  { eapply Forall_impl; [exact Hreg|]. intros x [u Hu]. simpl.
    destruct (Hle x u Hu) as (u' & Hu' & _). by eexists. }
  destruct Heff; try done.
  unfold registry_allocated. simpl in *. apply Forall_app. split; [done|].
  repeat constructor. rewrite list_lookup_middle by done. by eexists.
Qed.

Lemma run_registry ops : forall w rs w',
  run ops w = Some (rs, w') ->
  registry_allocated (app w) (heap w) -> registry_allocated (app w') (heap w').
Proof.
  induction ops as [|op ops IH]; intros w rs w' Hrun Hreg; simpl in Hrun.
  - by simplify_eq.
  - destruct (run_op op w) as [[r w1]|] eqn:Hop; [|done].
    destruct (run ops w1) as [[rs' w2]|] eqn:Hrest; [|done].
    simplify_eq. eapply IH; [done|].
    eapply effect_registry; [by apply run_op_effect | done].
Qed.

(** X6: the feed never loses an entry.  A string that [render_feed]
    returns is returned by every [render_feed] after any further run of
    calls. *)
Theorem feed_keeps_entries ops w rs w' feed h1 :
  render_feed (app w) (heap w) = Some (feed, h1) ->
  run ops w = Some (rs, w') ->
  exists feed',
    render_feed (app w') (heap w') = Some (feed', heap w') /\
    forall e, e ∈ feed -> e ∈ feed'.
Proof.
  intros Hfeed Hrun.
  pose proof (feed_loop_allocated _ _ _ _ _ Hfeed) as Hall.
  rewrite (render_feed_spec _ _ Hall) in Hfeed. injection Hfeed as <- <-.
  destruct (run_users_le _ _ _ _ Hrun) as [Hle Hreg].
  eexists. split; [apply render_feed_spec; by eapply run_registry|].
  intros e. rewrite !first_occurrences_elem, !all_entries_elem.
  intros (r & Hr & He). exists r. split.
  - destruct Hreg as [k ->]. apply elem_of_app. by left.
  - unfold log_of in *.
    destruct (user_objs (heap w) !! r) as [u|] eqn:Hu; [|by apply elem_of_nil in He].
    destruct (Hle r u Hu) as (u' & -> & _ & [k ->] & _).
    apply elem_of_app. by left.
Qed.

Lemma feed_keeps_entries_witness :
  exists feed',
    render_feed (app befriended_world) after_coffee_heap = Some (feed', after_coffee_heap) /\
    forall e, e ∈ ["Alice and Bob are now friends"; "Bob and Alice are now friends"]
              -> e ∈ feed'.
Proof.
  apply (feed_keeps_entries [OpPay 0 1 10 "Coffee"] befriended_world [RBool true]
           (mkWorld (app befriended_world) after_coffee_heap) _ befriended_heap);
    vm_compute; reflexivity.
Defined.

Lemma feed_extend_elem acc l x : x ∈ l -> x ∈ feed_extend acc l.
Proof.
  intros Hx. rewrite feed_extend_first_occurrences, elem_of_app.
  destruct (decide (x ∈ acc)); [by left | right].
  apply list_elem_of_filter. split; [done | by apply first_occurrences_elem].
Qed.

Lemma feed_extend_acc acc l x : x ∈ acc -> x ∈ feed_extend acc l.
Proof. intros Hx. rewrite feed_extend_first_occurrences, elem_of_app. by left. Qed.

(** Entries the feed already holds are passed over. *)
Lemma feed_extend_absorb acc l : (forall x, x ∈ l -> x ∈ acc) -> feed_extend acc l = acc.
Proof.
  induction l as [|x l IH]; intros Hl; [done|].
  unfold feed_extend in *. simpl. unfold feed_push at 2.
  rewrite bool_decide_eq_true_2 by (apply Hl; left).
  apply IH. intros y Hy. apply Hl. by right.
Qed.

(** Appending to the logs strings they already hold leaves the feed as
    it is. *)
Lemma feed_extend_repeats h h' (extra : nat -> list string) users : forall acc,
  (forall r, log_of h' r = log_of h r ++ extra r) ->
  (forall r x, x ∈ extra r -> x ∈ log_of h r) ->
  feed_extend acc (concat (log_of h' <$> users))
  = feed_extend acc (concat (log_of h <$> users)).
Proof.
  induction users as [|r users IH]; intros acc Hlog Hold; [done|].
  rewrite !fmap_cons. simpl. rewrite !feed_extend_app, Hlog, feed_extend_app.
  rewrite (feed_extend_absorb _ (extra r)); [by apply IH|].
  intros x Hx. by apply feed_extend_elem, Hold.
Qed.

(** X7: a payment repeated word for word leaves no trace in the feed.
    When the same payer pays the same recipient the same amount for the
    same description twice from the balance, the feed after the second
    payment is the feed after the first. *)
Theorem repeated_payment_same_feed app h a b ua ub m d :
  registry_allocated app h ->
  a <> b ->
  user_objs h !! a = Some ua ->
  user_objs h !! b = Some ub ->
  0 < m ->
  User.balance ua >= m + m ->
  exists h1 h2 feed,
    pay a b m d h = Some (true, h1) /\
    pay a b m d h1 = Some (true, h2) /\
    render_feed app h1 = Some (feed, h1) /\
    render_feed app h2 = Some (feed, h2).
Proof.
  intros Hreg Hab Ha Hb Hm Hbal.
  destruct (pay_cash_effect h a b ua ub m d) as (h1 & Hpay1 & Ha1 & Hb1 & Hother1);
    [done | done | done | done | lia |].
  destruct (pay_cash_effect h1 a b _ _ m d Hab Ha1 Hb1)
    as (h2 & Hpay2 & Ha2 & Hb2 & Hother2); [done | simpl; lia |].
  simpl in Ha2, Hb2.
  set (e := paid_entry (User.name ua) (User.name ub) m d) in *.
  assert (forall x, is_Some (user_objs h !! x) -> is_Some (user_objs h1 !! x)) as H01.
  { intros x Hx. destruct (decide (x = a)) as [->|]; [by eexists|].
    destruct (decide (x = b)) as [->|]; [by eexists|]. by rewrite Hother1. }
  assert (forall x, is_Some (user_objs h1 !! x) -> is_Some (user_objs h2 !! x)) as H12.
  { intros x Hx. destruct (decide (x = a)) as [->|]; [by eexists|].
    destruct (decide (x = b)) as [->|]; [by eexists|]. by rewrite Hother2. }
  assert (registry_allocated app h1) as Hreg1.
  { eapply Forall_impl; [exact Hreg|]. intros x. apply H01. }
  assert (registry_allocated app h2) as Hreg2.
  { eapply Forall_impl; [exact Hreg1|]. intros x. apply H12. }
  exists h1, h2, (first_occurrences (all_entries h1 app)).
  split_and!; [done | done | by apply render_feed_spec |].
  rewrite (render_feed_spec _ _ Hreg2). do 2 f_equal.
  pose proof (render_feed_spec _ _ Hreg1) as Hf1.
  pose proof (render_feed_spec _ _ Hreg2) as Hf2.
  unfold render_feed in Hf1, Hf2.
  rewrite feed_loop_all_entries in Hf1, Hf2 by done.
  injection Hf1 as Hf1. injection Hf2 as Hf2.
  unfold all_entries in *. rewrite <- Hf1, <- Hf2.
  apply (feed_extend_repeats h1 h2
           (fun r => if decide (r = a \/ r = b) then [e] else [])).
  - intros r. case_decide as Hr.
    + destruct Hr as [->| ->].
      * by rewrite (log_of_lookup _ _ _ Ha2), (log_of_lookup _ _ _ Ha1).
      * by rewrite (log_of_lookup _ _ _ Hb2), (log_of_lookup _ _ _ Hb1).
    + unfold log_of. rewrite Hother2 by naive_solver. by rewrite app_nil_r.
  - intros r x Hx. case_decide as Hr; [|by apply elem_of_nil in Hx].
    apply list_elem_of_singleton in Hx as ->.
    destruct Hr as [->| ->].
    + rewrite (log_of_lookup _ _ _ Ha1). simpl.
      apply elem_of_app. right. by apply list_elem_of_singleton.
    + rewrite (log_of_lookup _ _ _ Hb1). simpl.
      apply elem_of_app. right. by apply list_elem_of_singleton.
Qed.

Lemma repeated_payment_same_feed_witness :
  exists h1 h2 feed,
    pay 0 1 10 "Coffee" setUp_heap = Some (true, h1) /\
    pay 0 1 10 "Coffee" h1 = Some (true, h2) /\
    render_feed (app setUp_world) h1 = Some (feed, h1) /\
    render_feed (app setUp_world) h2 = Some (feed, h2).
Proof.
  apply (repeated_payment_same_feed (app setUp_world) setUp_heap 0 1 alice bob
           10 "Coffee").
  - repeat constructor; eexists; reflexivity.
  - lia.
  - reflexivity.
  - reflexivity.
  - lia.
  - simpl. lia.
Defined.

(** ** Charges and cards *)






(** Assigning a card twice is assigning the second card. *)
Lemma assign_credit_card_overwrites h u c1 c2 :
  (assign_credit_card u c1 ;;; assign_credit_card u c2) h
  = assign_credit_card u c2 h.
Proof.
  unfold bind, assign_credit_card, user_update.
  destruct (user_objs h !! u) as [ua|] eqn:Hu; [|done]. simpl.
  rewrite list_lookup_insert_eq by (by eapply lookup_lt_Some).
  by rewrite list_insert_insert_eq.
Qed.

(** X10: a newly assigned card replaces the old one.  Whatever card the
    payer held before, after [assign_credit_card] a payment that the
    balance does not cover is taken from the new card alone: the new card
    falls by the amount and every other card, the old one included, is as
    before. *)
Theorem reassigned_card_pays h a b ua ub c card m d :
  a <> b ->
  user_objs h !! a = Some ua ->
  user_objs h !! b = Some ub ->
  card_objs h !! c = Some card ->
  0 < m ->
  User.balance ua < m ->
  CreditCard.balance card >= m ->
  exists h1 h2,
    assign_credit_card a (Some c) h = Some (tt, h1) /\
    pay a b m d h1 = Some (true, h2) /\
    card_objs h2 !! c = Some (CreditCard.mk (CreditCard.balance card - m)) /\
    (forall x, x <> c -> card_objs h2 !! x = card_objs h !! x).
Proof.
  intros Hab Ha Hb Hc Hm Hbal Hcov.
  pose proof (lookup_lt_Some _ _ _ Ha) as La.
  pose proof (lookup_lt_Some _ _ _ Hc) as Lc.
  eexists _, _. split_and!.
  - unfold assign_credit_card, user_update. by rewrite Ha.
  - eapply (pay_credit_store _ a b (User.set_credit_card (Some c) ua) ub c card);
      simpl; try done.
    + by apply list_lookup_insert_eq.
    + by rewrite list_lookup_insert_ne.
  - simpl. by apply list_lookup_insert_eq.
  - intros x Hx. simpl. by apply list_lookup_insert_ne.
Qed.

Lemma reassigned_card_pays_witness :
  exists h1 h2,
    assign_credit_card 1 (Some 0%nat) setUp_heap = Some (tt, h1) /\
    pay 1 0 60 "rent" h1 = Some (true, h2) /\
    card_objs h2 !! 0%nat = Some (CreditCard.mk 40).
Proof.
  destruct (reassigned_card_pays setUp_heap 1 0 bob alice 0 (CreditCard.mk 100)
              60 "rent") as (h1 & h2 & Hassign & Hpay & Hcard & _);
    [lia | reflexivity | reflexivity | reflexivity | lia | simpl; lia | simpl; lia |].
  exists h1, h2. split_and!; [exact Hassign | exact Hpay | exact Hcard].
Defined.

(** ** Friend-adds and payments keep to their own attributes *)

(** X11: asking again is refused.  After [a.add_friend(b)] has returned
    true, the same call returns false and changes nothing. *)
Theorem add_friend_again_refused h a b h1 :
  add_friend a b h = Some (true, h1) ->
  add_friend a b h1 = Some (false, h1).
Proof.
  intros Hadd.
  destruct (add_friend_inv _ _ _ _ _ Hadd)
    as [[? _]|(_ & Hba & Hnew & (ua & ub & Ha & Hb) & _)]; [done|].
  rewrite (friends_of_lookup _ _ _ Ha) in Hnew.
  rewrite (add_friend_success h a b ua ub) in Hadd by done.
  injection Hadd as <-.
  pose proof (lookup_lt_Some _ _ _ Ha) as La.
  eapply add_friend_refused.
  - simpl. rewrite list_lookup_insert_ne by done. by apply list_lookup_insert_eq.
  - right. simpl. apply elem_of_app. right. by apply list_elem_of_singleton.
Qed.

Lemma add_friend_again_refused_witness :
  add_friend 0 1 befriended_heap = Some (false, befriended_heap).
Proof.
  apply (add_friend_again_refused setUp_heap 0 1 befriended_heap).
  vm_compute. reflexivity.
Defined.

(** X12: [add_friend] is no payment and [pay] makes no friends.
    Whatever [add_friend] returns, every balance, every card and every
    card assignment is as before; whatever [pay] returns, every friend
    list is as before. *)
Theorem add_friend_and_pay_separate h a b :
  (forall r h',
      add_friend a b h = Some (r, h') ->
      User.balance <$> user_objs h' = User.balance <$> user_objs h /\
      User.credit_card <$> user_objs h' = User.credit_card <$> user_objs h /\
      card_objs h' = card_objs h) /\
  (forall m d r h',
      pay a b m d h = Some (r, h') ->
      User.friends <$> user_objs h' = User.friends <$> user_objs h).
Proof.
  split.
  - intros r h' Hadd.
    destruct (add_friend_inv _ _ _ _ _ Hadd)
      as [[_ ->]|(-> & Hba & Hnew & (ua & ub & Ha & Hb) & _)]; [done|].
    rewrite (friends_of_lookup _ _ _ Ha) in Hnew.
    rewrite (add_friend_success h a b ua ub) in Hadd by done.
    injection Hadd as <-. simpl.
    rewrite !list_fmap_insert. simpl.
    rewrite !(list_insert_id (_ <$> user_objs h))
      by (rewrite list_lookup_fmap; (by rewrite Ha) || by rewrite Hb).
    done.
  - intros m d r h' Hpay.
    pose proof (pay_effect (mkWorld MiniVenmo.init h) a b m d r h' Hpay) as Heff.
    simpl in Heff. inversion Heff; simplify_eq/=; try done;
      rewrite !list_fmap_insert; simpl;
      rewrite !(list_insert_id (_ <$> user_objs h)); try done;
      rewrite list_lookup_fmap; by simplify_option_eq.
Qed.

Lemma add_friend_and_pay_separate_witness :
  User.balance <$> user_objs befriended_heap = User.balance <$> user_objs setUp_heap /\
  User.friends <$> user_objs after_lunch_heap
  = User.friends <$> user_objs (with_balances 5 100).
Proof.
  split.
  - apply (add_friend_and_pay_separate setUp_heap 0 1) with (r := true).
    vm_compute. reflexivity.
  - apply (add_friend_and_pay_separate (with_balances 5 100) 0 1)
      with (m := 20) (d := "Lunch"%string) (r := true).
    vm_compute. reflexivity.
Defined.



(** ** The registry *)


Lemma effect_registry_seq w op r w' :
  effect w op r w' ->
  MiniVenmo.users (app w) = seq 0 (length (user_objs (heap w))) ->
  MiniVenmo.users (app w') = seq 0 (length (user_objs (heap w'))).
Proof.
  destruct 1; simpl; rewrite ?length_insert; try done.
  intros ->. rewrite length_app. simpl. by rewrite seq_app.
Qed.

Lemma reachable_registry_seq w :
  reachable w -> MiniVenmo.users (app w) = seq 0 (length (user_objs (heap w))).
Proof.
  induction 1 as [|w op r w' _ IH Hrun]; [done|].
  eapply effect_registry_seq; [by apply run_op_effect | done].
Qed.

Lemma reachable_registered w r :
  reachable w -> r ∈ MiniVenmo.users (app w) <-> is_Some (user_objs (heap w) !! r).
Proof.
  intros Hw. rewrite (reachable_registry_seq w Hw), elem_of_seq, lookup_lt_is_Some.
  lia.
Qed.

(** X15: the registry is the users, in the order of their creation.  In
    every state a client can reach, the registry lists the references
    0, 1, 2, ... of all users created, each once: no user is missing,
    none is listed twice, and the order is that of creation. *)
Theorem registry_in_creation_order w :
  reachable w ->
  MiniVenmo.users (app w) = seq 0 (length (user_objs (heap w))) /\
  NoDup (MiniVenmo.users (app w)) /\
  (forall r, r ∈ MiniVenmo.users (app w) <-> is_Some (user_objs (heap w) !! r)).
Proof.
  intros Hw. pose proof (reachable_registry_seq w Hw) as Hseq.
  split_and!; [done | rewrite Hseq; apply NoDup_seq |].
  intros r. by apply reachable_registered.
Qed.

Lemma registry_in_creation_order_witness :
  MiniVenmo.users (app befriended_world) = seq 0 2.
Proof.
  apply (registry_in_creation_order befriended_world).
  eapply (run_reachable befriended_ops fresh_world); [apply reachable_fresh|].
  vm_compute. reflexivity.
Defined.

(** ** Friendships in reachable states *)

Lemma reachable_friends_invariant w : reachable w -> friends_invariant (heap w).
Proof.
  induction 1 as [|w op r w' _ IH Hrun]; [|by eapply friends_invariant_step].
  split_and!; intros a; [intros b|..]; simpl; rewrite ?friends_of_empty.
  - by rewrite !elem_of_nil.
  - apply not_elem_of_nil.
  - constructor.
Qed.

Lemma friends_of_allocated h a b : b ∈ friends_of h a -> is_Some (user_objs h !! a).
Proof.
  unfold friends_of. destruct (user_objs h !! a); [by eexists|].
  by intros ?%elem_of_nil.
Qed.

(** X16: friends are users of the application.  In every state a client
    can reach, whenever [b] is in the friend list of [a], both are
    registered users, they are different users, and [a] is in the friend
    list of [b]. *)
Theorem friends_are_registered w a b :
  reachable w ->
  b ∈ friends_of (heap w) a ->
  a ∈ MiniVenmo.users (app w) /\
  b ∈ MiniVenmo.users (app w) /\
  a <> b /\
  a ∈ friends_of (heap w) b.
Proof.
  intros Hw Hab.
  destruct (reachable_friends_invariant w Hw) as (Hsym & Hirr & _).
  pose proof (proj1 (Hsym a b) Hab) as Hba.
  split_and!; [| | |done].
  - apply (reachable_registered w a Hw). by eapply friends_of_allocated.
  - apply (reachable_registered w b Hw). by eapply friends_of_allocated.
  - intros ->. by apply (Hirr b).
Qed.

Lemma friends_are_registered_witness :
  0%nat ∈ MiniVenmo.users (app befriended_world) /\
  1%nat ∈ MiniVenmo.users (app befriended_world) /\
  0%nat <> 1%nat /\
  0%nat ∈ friends_of (heap befriended_world) 1.
Proof.
  apply (friends_are_registered befriended_world 0 1).
  - eapply (run_reachable befriended_ops fresh_world); [apply reachable_fresh|].
    vm_compute. reflexivity.
  - repeat constructor.
Defined.

Lemma run_add_friend_store x y w w' :
  run_op (OpAddFriend x y) w = Some (RBool true, w') ->
  exists ux uy,
    y <> x /\
    user_objs (heap w) !! x = Some ux /\
    user_objs (heap w) !! y = Some uy /\
    user_objs (heap w') !! x
    = Some (User.mk (User.name ux) (User.balance ux) (User.credit_card ux)
              (User.friends ux ++ [y])
              (User.activity_log ux ++ [friends_entry (User.name ux) (User.name uy)])) /\
    user_objs (heap w') !! y
    = Some (User.mk (User.name uy) (User.balance uy) (User.credit_card uy)
              (User.friends uy ++ [x])
              (User.activity_log uy ++ [friends_entry (User.name uy) (User.name ux)])).
Proof.
  simpl. unfold call. intros Hrun.
  destruct (add_friend x y (heap w)) as [[ok h1]|] eqn:Hadd; [|done].
  injection Hrun as -> <-. simpl.
  destruct (add_friend_inv _ _ _ _ _ Hadd)
    as [[? _]|(_ & Hyx & Hnew & (ux & uy & Hx & Hy) & _)]; [done|].
  rewrite (friends_of_lookup _ _ _ Hx) in Hnew.
  rewrite (add_friend_success _ x y ux uy) in Hadd by done.
  injection Hadd as <-. exists ux, uy.
  edestruct (lookup_two_updates (user_objs (heap w)) x y) as (Hx' & Hy' & _);
    [done | by eapply lookup_lt_Some..|].
  split_and!; [done | done | done | exact Hx' | exact Hy'].
Qed.

Lemma friendships_logged_step op w r w' :
  run_op op w = Some (r, w') ->
  friends_invariant (heap w) ->
  friendships_logged (heap w) ->
  friendships_logged (heap w').
Proof.
  intros Hrun (Hsym & _ & _) Hlog a b ua' ub' Ha' Hb' Hin.
  destruct (effect_users_le _ _ _ _ (run_op_effect _ _ _ _ Hrun)) as [Hle _].
  assert (b ∈ friends_of (heap w) a ->
          friends_entry (User.name ua') (User.name ub') ∈ User.activity_log ua')
    as Hold.
  { intros Hab. pose proof (proj1 (Hsym a b) Hab) as Hba.
    destruct (friends_of_allocated _ _ _ Hab) as [ua Ha].
    destruct (friends_of_allocated _ _ _ Hba) as [ub Hb].
    destruct (Hle a ua Ha) as (ua'' & Ha'' & Hna & [k Hk] & _).
    destruct (Hle b ub Hb) as (ub'' & Hb'' & Hnb & _).
    simplify_eq. rewrite Hna, Hnb, Hk. apply elem_of_app. left.
    eapply Hlog; [done | done |]. by rewrite <- (friends_of_lookup _ _ _ Ha). }
  rewrite <- (friends_of_lookup _ _ _ Ha') in Hin.
  destruct (run_op_friends _ _ _ _ Hrun)
    as [Hsame|(x & y & -> & -> & _ & _ & Hext)].
  { apply Hold. by rewrite <- Hsame. }
  rewrite Hext, elem_of_app, new_friend_elem in Hin.
  destruct Hin as [?|Hnew]; [by apply Hold|].
  destruct (run_add_friend_store _ _ _ _ Hrun)
    as (ux & uy & Hyx & Hx & Hy & Hx' & Hy').
  destruct Hnew as [[-> ->]|(_ & -> & ->)]; simplify_eq; simpl;
    apply elem_of_app; right; by apply list_elem_of_singleton.
Qed.

Lemma reachable_friendships_logged w : reachable w -> friendships_logged (heap w).
Proof.
  induction 1 as [|w op r w' Hw IH Hrun].
  - by intros [] ? ? ? ?.
  - eapply friendships_logged_step; [done | by apply reachable_friends_invariant | done].
Qed.

(** X17: every friendship is on record.  In every state a client can
    reach, if [b] is in the friend list of [a], then the log of [a] holds
    "<a> and <b> are now friends", and so does the feed. *)
Theorem friendships_are_logged w a b ua ub :
  reachable w ->
  user_objs (heap w) !! a = Some ua ->
  user_objs (heap w) !! b = Some ub ->
  b ∈ User.friends ua ->
  (User.name ua +:+ " and " +:+ User.name ub +:+ " are now friends")
    ∈ User.activity_log ua /\
  exists feed,
    render_feed (app w) (heap w) = Some (feed, heap w) /\
    (User.name ua +:+ " and " +:+ User.name ub +:+ " are now friends") ∈ feed.
Proof.
  intros Hw Ha Hb Hin.
  pose proof (reachable_friendships_logged w Hw a b ua ub Ha Hb Hin) as Hlog.
  split; [exact Hlog|].
  eexists. split; [by apply render_feed_reachable|].
  apply first_occurrences_elem, all_entries_elem. exists a. split.
  - apply (reachable_registered w a Hw). by eexists.
  - by rewrite (log_of_lookup _ _ _ Ha).
Qed.

Lemma friendships_are_logged_witness :
  "Bob and Alice are now friends"
    ∈ ["Bob and Alice are now friends"] /\
  exists feed,
    render_feed (app befriended_world) befriended_heap = Some (feed, befriended_heap) /\
    "Bob and Alice are now friends" ∈ feed.
Proof.
  apply (friendships_are_logged befriended_world 1 0
           (User.mk "Bob" 20 None [0%nat] ["Bob and Alice are now friends"])
           (User.mk "Alice" 50 (Some 0%nat) [1%nat] ["Alice and Bob are now friends"])).
  - eapply (run_reachable befriended_ops fresh_world); [apply reachable_fresh|].
    vm_compute. reflexivity.
  - reflexivity.
  - reflexivity.
  - repeat constructor.
Defined.

(** ** What is written to a log *)

Lemma log_length_two_updates h h' a b ua ub ua' ub' ea eb x :
  user_objs h' = <[b := ub']> (<[a := ua']> (user_objs h)) ->
  b <> a ->
  user_objs h !! a = Some ua ->
  user_objs h !! b = Some ub ->
  User.activity_log ua' = User.activity_log ua ++ [ea] ->
  User.activity_log ub' = User.activity_log ub ++ [eb] ->
  length (log_of h' x)
  = (length (log_of h x) + if bool_decide (x = a \/ x = b) then 1 else 0)%nat.
Proof.
  intros Hh' Hba Ha Hb Hla Hlb.
  destruct (lookup_two_updates (user_objs h) a b ua' ub') as (Ha' & Hb' & Hother);
    [done | by eapply lookup_lt_Some..|].
  rewrite <- Hh' in Ha', Hb', Hother.
  destruct (decide (x = a)) as [->|Hxa].
  { rewrite (log_of_lookup _ _ _ Ha'), (log_of_lookup _ _ _ Ha), Hla, length_app.
    by rewrite bool_decide_eq_true_2 by (by left). }
  destruct (decide (x = b)) as [->|Hxb].
  { rewrite (log_of_lookup _ _ _ Hb'), (log_of_lookup _ _ _ Hb), Hlb, length_app.
    by rewrite bool_decide_eq_true_2 by (by right). }
  unfold log_of. rewrite Hother by done.
  rewrite bool_decide_eq_false_2 by naive_solver. lia.
Qed.

Lemma effect_log_length w op r w' a :
  effect w op r w' ->
  length (log_of (heap w') a)
  = (length (log_of (heap w) a) + if involves a (op, r) then 1 else 0)%nat.
Proof.
  destruct 1; simpl involves; rewrite ?Nat.add_0_r; try done.
  - unfold log_of. simpl.
    destruct (decide (a < length (user_objs (heap w)))%nat).
    + by rewrite lookup_app_l.
    + rewrite (lookup_ge_None_2 (user_objs (heap w))) by lia.
      destruct (decide (a = length (user_objs (heap w)))) as [->|].
      * by rewrite list_lookup_middle.
      * rewrite lookup_ge_None_2; [done|]. rewrite length_app. simpl. lia.
  - unfold log_of. simpl. destruct (decide (a = u)) as [->|].
    + rewrite list_lookup_insert_eq by (by eapply lookup_lt_Some).
      by simplify_option_eq.
    + by rewrite list_lookup_insert_ne.
  - by eapply log_length_two_updates.
  - by eapply log_length_two_updates.
  - by eapply log_length_two_updates.
Qed.

(** X18: what is written to a log.  Along any run, the log of a user
    grows by exactly one entry for each friend-add and each payment that
    returned true and has that user as one of its two users, and by
    nothing else: refused calls, reads, card calls and other users'
    dealings leave it as it is. *)
Theorem run_log_length ops a : forall w rs w',
  run ops w = Some (rs, w') ->
  length (log_of (heap w') a)
  = (length (log_of (heap w) a)
     + length (filter (fun call => involves a call = true) (zip ops rs)))%nat.
Proof.
  induction ops as [|op ops IH]; intros w rs w' Hrun; simpl in Hrun.
  - simplify_eq. simpl. lia.
  - destruct (run_op op w) as [[r w1]|] eqn:Hop; [|done].
    destruct (run ops w1) as [[rs' w2]|] eqn:Hrest; [|done].
    simplify_eq.
    change (zip (op :: ops) (r :: rs')) with ((op, r) :: zip ops rs').
    rewrite (IH _ _ _ Hrest), (effect_log_length _ _ _ _ a (run_op_effect _ _ _ _ Hop)).
    destruct (involves a (op, r)) eqn:Hinv.
    + rewrite filter_cons_True by done. simpl. lia.
    + rewrite filter_cons_False by (by rewrite Hinv). lia.
Qed.

Lemma run_log_length_witness :
  length (log_of after_coffee_heap 1)
  = (length (log_of setUp_heap 1)
     + length (filter (fun call => involves 1 call = true)
                 (zip [OpAddFriend 0 1; OpPay 1 1 5 "self"; OpRenderFeed;
                       OpPay 0 1 10 "Coffee"]
                    [RBool true; RBool false;
                     RStrings ["Alice and Bob are now friends";
                               "Bob and Alice are now friends"];
                     RBool true])))%nat.
Proof.
  apply (run_log_length _ 1 setUp_world _
           (mkWorld (app setUp_world) after_coffee_heap)).
  vm_compute. reflexivity.
Defined.
